(** * kudu/util/memory/memory.h: buffer allocators, mediators and quotas

    A shallow embedding of the allocator framework declared in
    [src/kudu/util/memory/memory.h], and the properties of it that the
    specification states.

    Conventions of the embedding.
    - [size_t] is a 64-bit unsigned integer, carried by [Z]; every
      arithmetic operation of the source that can leave the range is
      written with its wrap-around ([size_add], [size_sub]).
    - Pointers ([void*], [BufferAllocator*]) are addresses in [Z]; the
      null pointer is [0].  A [Buffer*] that may be null is an [option].
    - Code that logs, overwrites fresh memory with a pattern (debug
      builds) or aborts on a failed [DCHECK]/[CHECK] runs in the monad
      [M]: a reader of the build mode that yields either the value with
      the trace of events it emitted, or [Fatal].
    - Objects are passed as values and returned updated (state passing).
      A decorator holds the pointee of its delegate pointer; the chains
      modelled here are trees, no delegate is shared between two parents.
    - [lock_guard_maybe<Mutex>] has no sequential effect and is omitted. *)

From Stdlib Require Import ZArith List Bool String Lia.
Import ListNotations.
Local Open Scope Z_scope.

(** ** Machine integers *)

Definition size_t : Type := Z.

Definition SIZE_BITS : Z := 64.
Definition SIZE_MODULUS : Z := Eval cbv in 2 ^ SIZE_BITS.

(** [std::numeric_limits<size_t>::max()] *)
Definition SIZE_MAX : size_t := Eval cbv in SIZE_MODULUS - 1.

Definition size_wrap (z : Z) : size_t := z mod SIZE_MODULUS.
Definition size_add (x y : size_t) : size_t := size_wrap (x + y).
Definition size_sub (x y : size_t) : size_t := size_wrap (x - y).
Arguments SIZE_MODULUS : simpl never.
Arguments SIZE_MAX : simpl never.
Arguments size_wrap : simpl never.
Arguments size_add : simpl never.
Arguments size_sub : simpl never.

(** The values a [size_t] variable can hold. *)
Definition is_size_t (z : Z) : Prop := 0 <= z <= SIZE_MAX.

(** ** Events, outcomes and the monad of the embedding *)

Inductive severity : Type := WARNING | ERROR.

(** The payload of the log lines of memory.h; the stream insertions of
    the source are kept as fields. *)
Inductive message : Type :=
| OutOfQuota (requested minimal quota usage : size_t)
    (enforced : bool) (allocated_minimal : bool)
| SuspiciouslyBigUsage (usage : size_t)
| AllocationFailed (requested minimal : size_t)
| AllocationShort (requested minimal granted : size_t).

Inductive event : Type :=
| LogLine (s : severity) (m : message)
| Overwrite (p : Z) (len : size_t) (pattern : string).

Inductive outcome (A : Type) : Type :=
| Done (trace : list event) (a : A)
| Fatal.
Arguments Done {A} trace a.
Arguments Fatal {A}.

(** A computation is run in a build mode: [true] is a debug build
    ([NDEBUG] not defined, [DCHECK]s armed), [false] a release build. *)
Definition M (A : Type) : Type := bool -> outcome A.

Definition ret {A : Type} (a : A) : M A := fun _ => Done [] a.

Definition bind {A B : Type} (m : M A) (k : A -> M B) : M B :=
  fun dbg =>
    match m dbg with
    | Fatal => Fatal
    | Done t1 a =>
        match k a dbg with
        | Fatal => Fatal
        | Done t2 b => Done (t1 ++ t2) b
        end
    end.

Declare Scope alloc_scope.
Delimit Scope alloc_scope with alloc.
Notation "x <- m ;; k" := (bind m (fun x => k))
  (at level 100, m at next level, right associativity) : alloc_scope.
Notation "' p <- m ;; k" := (bind m (fun x => match x with p => k end))
  (at level 100, p pattern, m at next level, right associativity) : alloc_scope.
Notation "m ;; k" := (bind m (fun _ => k))
  (at level 100, right associativity) : alloc_scope.
Local Open Scope alloc_scope.

(** [LOG(severity) << ...] *)
Definition LOG (s : severity) (m : message) : M unit :=
  fun _ => Done [LogLine s m] tt.

(** [DCHECK_LE(x, y)]: fatal in a debug build when [x > y], compiled out
    of a release build. *)
Definition DCHECK_LE (x y : Z) : M unit :=
  fun dbg => if dbg && (y <? x) then Fatal else Done [] tt.

(** [CHECK_NOTNULL(p)]: fatal in every build when [p] is null. *)
Definition CHECK_NOTNULL (p : Z) : M Z :=
  fun _ => if p =? 0 then Fatal else Done [] p.

(** Code under [#ifndef NDEBUG]. *)
Definition when_debug (m : M unit) : M unit :=
  fun dbg => if dbg then m dbg else Done [] tt.

(** ** Buffer *)

Module Buffer.

Record t : Type := mk
  { data_ : Z;            (* void* data_ *)
    size_ : size_t;       (* size_t size_ *)
    allocator_ : Z        (* BufferAllocator* const allocator_ *) }.

Definition data (b : t) : Z := data_ b.
Definition size (b : t) : size_t := size_ b.

Definition NEW36 : string :=
  "NEWNEWNEWNEWNEWNEWNEWNEWNEWNEWNEWNEW".
Definition ctor_pattern : string := NEW36 ++ NEW36 ++ NEW36.

(** [Buffer(void* data, size_t size, BufferAllocator* allocator)] *)
Definition ctor (data : Z) (size : size_t) (allocator : Z) : M t :=
  d <- CHECK_NOTNULL data ;;
  when_debug (fun _ => Done [Overwrite d size ctor_pattern] tt) ;;
  ret (mk d size allocator).

(** [void Update(void* new_data, size_t new_size)], called by a
    successful realloc.  The two assignments are the whole effect on the
    object; the debug overwrite touches the bytes pointed to. *)
Definition Update (b : t) (new_data : Z) (new_size : size_t) : M t :=
  when_debug (fun _ =>
    if size_ b <? new_size
    then Done [Overwrite (new_data + size_ b) (new_size - size_ b) "NEW"] tt
    else Done [] tt) ;;
  ret (mk new_data new_size (allocator_ b)).

End Buffer.

(** ** Mediator: the abstract policy class *)

Class Mediator (Q : Type) : Type :=
  { Mediator_Allocate : Q -> size_t -> size_t -> M (size_t * Q);
    Mediator_Free : Q -> size_t -> M Q;
    Mediator_Available : Q -> size_t }.

(** ** Quota<thread_safe> and StaticQuota<thread_safe>

    [StaticQuota] is the one subclass of [Quota] in the header; the
    record holds the members of both, and [GetQuotaInternal] is the
    override of [StaticQuota]. *)

Module Quota.

Record t : Type := mk
  { usage_ : size_t;
    enforced_ : bool;
    quota_ : size_t }.

(** [StaticQuota(size_t quota, bool enforced)]; the one-argument
    constructor passes [true]. *)
Definition ctor (quota : size_t) (enforced : bool) : t := mk 0 enforced quota.

Definition enforced (q : t) : bool := enforced_ q.
Definition GetQuotaInternal (q : t) : size_t := quota_ q.
Definition GetQuota (q : t) : size_t := GetQuotaInternal q.
Definition GetUsage (q : t) : size_t := usage_ q.
Definition SetQuota (q : t) (quota : size_t) : t :=
  mk (usage_ q) (enforced_ q) quota.

Definition set_usage (q : t) (u : size_t) : t :=
  mk u (enforced_ q) (quota_ q).

Definition Available (q : t) : size_t :=
  let quota := GetQuotaInternal q in
  if quota <=? usage_ q then 0 else size_sub quota (usage_ q).

Definition Allocate (q : t) (requested minimal : size_t) : M (size_t * t) :=
  DCHECK_LE minimal requested ;;
  let quota := GetQuotaInternal q in
  if (quota <? usage_ q) || (size_sub quota (usage_ q) <? minimal) then
    (* OOQ (Out of quota). *)
    let allocation :=
      if negb (enforced q) && (minimal <=? size_sub SIZE_MAX (usage_ q))
      then minimal else 0 in
    LOG WARNING
      (OutOfQuota requested minimal quota (usage_ q) (enforced q)
         (negb (allocation =? 0))) ;;
    ret (allocation, set_usage q (size_add (usage_ q) allocation))
  else
    let allocation := Z.min requested (size_sub quota (usage_ q)) in
    ret (allocation, set_usage q (size_add (usage_ q) allocation)).

Definition Free (q : t) (amount : size_t) : M t :=
  let q' := set_usage q (size_sub (usage_ q) amount) in
  if size_sub SIZE_MAX (Z.shiftl 1 28) <? usage_ q' then
    LOG ERROR (SuspiciouslyBigUsage (usage_ q')) ;;
    ret q'
  else ret q'.

(** The members hold values of their type. *)
Definition wf (q : t) : Prop := is_size_t (usage_ q) /\ is_size_t (quota_ q).

End Quota.

#[export] Instance Quota_Mediator : Mediator Quota.t :=
  { Mediator_Allocate := Quota.Allocate;
    Mediator_Free := Quota.Free;
    Mediator_Available := Quota.Available }.

(** ** BufferAllocator: the abstract class

    The three private virtual methods and the virtual [Available] are
    the class; [originator] is the allocator a new buffer is tagged
    with.  [ReallocateInternal] returns its verdict together with the
    buffer object it was handed, as the call left it. *)

Class BufferAllocator (A : Type) : Type :=
  { AllocateInternal :
      A -> size_t -> size_t -> Z -> M (option Buffer.t * A);
    ReallocateInternal :
      A -> size_t -> size_t -> Buffer.t -> Z -> M (bool * Buffer.t * A);
    FreeInternal : A -> Buffer.t -> M A;
    Available : A -> size_t }.

(** [BufferAllocator::LogAllocation] is declared in the header ("logs a
    warning message if the allocation failed or if it returned less than
    the required number of bytes") and defined in memory.cc, which is
    not among the sources: it is a parameter of the embedding. *)
Class LogAllocationImpl : Type :=
  { LogAllocation : size_t -> size_t -> option Buffer.t -> M unit }.

Section BufferAllocatorMethods.

Context {A : Type} `{BufferAllocator A} `{LogAllocationImpl}.

(** The non-virtual public methods; [this] is the address of the
    allocator object the method is called on. *)
Definition BestEffortAllocate (this : Z) (a : A) (requested minimal : size_t)
  : M (option Buffer.t * A) :=
  DCHECK_LE minimal requested ;;
  ' (result, a') <- AllocateInternal a requested minimal this ;;
  LogAllocation requested minimal result ;;
  ret (result, a').

Definition Allocate (this : Z) (a : A) (requested : size_t)
  : M (option Buffer.t * A) :=
  BestEffortAllocate this a requested requested.

(** The result is the returned pointer, then the buffer object passed in
    (if any) as the call left it, then the allocator. *)
Definition BestEffortReallocate (this : Z) (a : A) (requested minimal : size_t)
    (buffer : option Buffer.t)
  : M (option Buffer.t * option Buffer.t * A) :=
  DCHECK_LE minimal requested ;;
  match buffer with
  | None =>
      ' (result, a') <- AllocateInternal a requested minimal this ;;
      LogAllocation requested minimal result ;;
      ret (result, None, a')
  | Some b =>
      ' (ok, b', a') <- ReallocateInternal a requested minimal b this ;;
      let result := if ok : bool then Some b' else None in
      LogAllocation requested minimal (Some b') ;;
      ret (result, Some b', a')
  end.

Definition Reallocate (this : Z) (a : A) (requested : size_t)
    (buffer : option Buffer.t)
  : M (option Buffer.t * option Buffer.t * A) :=
  BestEffortReallocate this a requested requested buffer.

End BufferAllocatorMethods.

(** The protected helpers of [BufferAllocator]. *)
Definition CreateBuffer (data : Z) (size : size_t) (allocator : Z) : M Buffer.t :=
  Buffer.ctor data size allocator.

Definition UpdateBuffer (new_data : Z) (new_size : size_t) (buffer : Buffer.t)
  : M Buffer.t :=
  Buffer.Update buffer new_data new_size.

Definition DelegateAllocate {D : Type} `{BufferAllocator D}
    (delegate : D) (requested minimal : size_t) (originator : Z)
  : M (option Buffer.t * D) :=
  AllocateInternal delegate requested minimal originator.

Definition DelegateReallocate {D : Type} `{BufferAllocator D}
    (delegate : D) (requested minimal : size_t) (buffer : Buffer.t) (originator : Z)
  : M (bool * Buffer.t * D) :=
  ReallocateInternal delegate requested minimal buffer originator.

Definition DelegateFree {D : Type} `{BufferAllocator D}
    (delegate : D) (buffer : Buffer.t) : M D :=
  FreeInternal delegate buffer.

(** ** HeapBufferAllocator *)

Module HeapBufferAllocator.

(** Modelled from the spec: the methods of [HeapBufferAllocator] other
    than [Available] are defined in memory.cc, which is not among the
    sources; the class has the one member [aligned_mode_].  The spec has
    the node allocate through the raw heap primitive, grant the full
    requested amount or deny entirely, resize in place on reallocate and
    leave the block untouched when that fails.  The raw heap, of which
    the spec fixes nothing, is a region that hands out [room_] bytes from
    the address [brk_] upwards; a block grows in place whenever the
    region has the room, so the allocate-copy-free fallback of the spec,
    which needs more room still, has no case of its own. *)
Record t : Type := mk
  { aligned_mode_ : bool;
    brk_ : Z;
    room_ : size_t }.

(** Modelled from the spec: [HeapBufferAllocator::Malloc] (memory.cc),
    the raw heap primitive; it fails when the region has less than
    [size] bytes left, and its addresses are never null. *)
Definition Malloc (h : t) (size : size_t) : option (Z * t) :=
  if size <=? room_ h
  then Some (brk_ h, mk (aligned_mode_ h) (brk_ h + Z.max size 1) (room_ h - size))
  else None.

(** Modelled from the spec: [HeapBufferAllocator::Realloc] (memory.cc),
    the raw heap primitive; the block is resized in place. *)
Definition Realloc (h : t) (previousData : Z) (previousSize newSize : size_t)
  : option (Z * t) :=
  if newSize - previousSize <=? room_ h
  then Some (previousData,
             mk (aligned_mode_ h) (brk_ h) (room_ h - (newSize - previousSize)))
  else None.

(** Modelled from the spec: [HeapBufferAllocator::AllocateInternal]
    (memory.cc).  The spec, and the comment on its declaration: always
    the full [requested] amount, or no buffer. *)
Definition AllocateInternal (h : t) (requested minimal : size_t) (originator : Z)
  : M (option Buffer.t * t) :=
  match Malloc h requested with
  | Some (data, h') =>
      b <- CreateBuffer data requested originator ;;
      ret (Some b, h')
  | None => ret (None, h)
  end.

(** Modelled from the spec: [HeapBufferAllocator::ReallocateInternal]
    (memory.cc).  The spec: a resize of the block; on failure the
    original block is left untouched. *)
Definition ReallocateInternal (h : t) (requested minimal : size_t)
    (buffer : Buffer.t) (originator : Z) : M (bool * Buffer.t * t) :=
  match Realloc h (Buffer.data buffer) (Buffer.size buffer) requested with
  | Some (data, h') =>
      b <- UpdateBuffer data requested buffer ;;
      ret (true, b, h')
  | None => ret (false, buffer, h)
  end.

(** Modelled from the spec: [HeapBufferAllocator::FreeInternal]
    (memory.cc); the bytes of the block go back to the region. *)
Definition FreeInternal (h : t) (buffer : Buffer.t) : M t :=
  ret (mk (aligned_mode_ h) (brk_ h) (room_ h + Buffer.size buffer)).

(** [Available] is in the header. *)
Definition Available (h : t) : size_t := SIZE_MAX.

End HeapBufferAllocator.

#[export] Instance HeapBufferAllocator_BufferAllocator
  : BufferAllocator HeapBufferAllocator.t :=
  { AllocateInternal := HeapBufferAllocator.AllocateInternal;
    ReallocateInternal := HeapBufferAllocator.ReallocateInternal;
    FreeInternal := HeapBufferAllocator.FreeInternal;
    Available := HeapBufferAllocator.Available }.

(** Modelled from the spec: the body of [BufferAllocator::LogAllocation]
    is in memory.cc and the spec leaves process logging to a
    collaborator; this instance, for closed examples, follows the
    comment on the declaration in memory.h, a warning when the
    allocation failed or came out shorter than required. *)
#[export] Instance LogAllocation_as_documented : LogAllocationImpl :=
  { LogAllocation := fun required minimal buffer =>
      match buffer with
      | None => LOG WARNING (AllocationFailed required minimal)
      | Some b =>
          if Buffer.size b <? required
          then LOG WARNING (AllocationShort required minimal (Buffer.size b))
          else ret tt
      end }.

(** ** MediatingBufferAllocator *)

Module MediatingBufferAllocator.

Section WithDelegateAndMediator.

Context {D Q : Type} `{BufferAllocator D} `{Mediator Q}.

(** The pointees of [delegate_] and [mediator_]. *)
Record t : Type := mk
  { delegate_ : D;
    mediator_ : Q }.

(** In the header. *)
Definition Available (s : t) : size_t :=
  Z.min (Available (delegate_ s)) (Mediator_Available (mediator_ s)).

(** Modelled from the spec: [MediatingBufferAllocator::AllocateInternal]
    is defined in memory.cc, which is not among the sources.  The spec:
    ask the mediator for an approved size [a] with the original
    [requested] and [minimal]; if [a == 0], deny; else [allocate(a, a)]
    on the inner node. *)
Definition AllocateInternal (s : t) (requested minimal : size_t) (originator : Z)
  : M (option Buffer.t * t) :=
  ' (a, med) <- Mediator_Allocate (mediator_ s) requested minimal ;;
  if a =? 0 then ret (None, mk (delegate_ s) med)
  else
    ' (result, d) <- DelegateAllocate (delegate_ s) a a originator ;;
    ret (result, mk d med).

(** Modelled from the spec: [MediatingBufferAllocator::ReallocateInternal]
    is defined in memory.cc.  The spec: the same two-step gate, then the
    inner node's reallocate with the block passed through; the
    mediator's bookkeeping stays updated whether or not the inner
    reallocate succeeds. *)
Definition ReallocateInternal (s : t) (requested minimal : size_t)
    (buffer : Buffer.t) (originator : Z) : M (bool * Buffer.t * t) :=
  ' (a, med) <- Mediator_Allocate (mediator_ s) requested minimal ;;
  if a =? 0 then ret (false, buffer, mk (delegate_ s) med)
  else
    ' (ok, b, d) <- DelegateReallocate (delegate_ s) a a buffer originator ;;
    ret (ok, b, mk d med).

(** Modelled from the spec: [MediatingBufferAllocator::FreeInternal] is
    defined in memory.cc.  The spec: forward to the inner node's free,
    then credit the mediator with [mediator.free(block.size)]. *)
Definition FreeInternal (s : t) (buffer : Buffer.t) : M t :=
  d <- DelegateFree (delegate_ s) buffer ;;
  med <- Mediator_Free (mediator_ s) (Buffer.size buffer) ;;
  ret (mk d med).

End WithDelegateAndMediator.

Arguments t : clear implicits.

End MediatingBufferAllocator.

#[export] Instance MediatingBufferAllocator_BufferAllocator
    {D Q : Type} `{BufferAllocator D} `{Mediator Q}
  : BufferAllocator (MediatingBufferAllocator.t D Q) :=
  { AllocateInternal := MediatingBufferAllocator.AllocateInternal;
    ReallocateInternal := MediatingBufferAllocator.ReallocateInternal;
    FreeInternal := MediatingBufferAllocator.FreeInternal;
    Available := MediatingBufferAllocator.Available }.

(** ** MemoryLimit

    [quota_] and [allocator_] are sibling members, and [allocator_]
    holds the address of [quota_] as its mediator: the record keeps the
    quota once, as the mediator of [allocator_]. *)

Module MemoryLimit.

Section WithDelegate.

Context {D : Type} `{BufferAllocator D}.

Record t : Type := mk
  { allocator_ : MediatingBufferAllocator.t D Quota.t }.

Definition quota_ (l : t) : Quota.t :=
  MediatingBufferAllocator.mediator_ (allocator_ l).

(** [MemoryLimit(size_t quota, bool enforced, BufferAllocator* delegate)] *)
Definition ctor3 (quota : size_t) (enforced : bool) (delegate : D) : t :=
  mk (MediatingBufferAllocator.mk delegate (Quota.ctor quota enforced)).

(** [MemoryLimit(size_t quota, BufferAllocator* delegate)] *)
Definition ctor2 (quota : size_t) (delegate : D) : t :=
  mk (MediatingBufferAllocator.mk delegate (Quota.ctor quota true)).

Definition Available (l : t) : size_t := Available (allocator_ l).
Definition GetQuota (l : t) : size_t := Quota.GetQuota (quota_ l).
Definition GetUsage (l : t) : size_t := Quota.GetUsage (quota_ l).
Definition SetQuota (l : t) (quota : size_t) : t :=
  mk (MediatingBufferAllocator.mk
        (MediatingBufferAllocator.delegate_ (allocator_ l))
        (Quota.SetQuota (quota_ l) quota)).

Definition AllocateInternal (l : t) (requested minimal : size_t) (originator : Z)
  : M (option Buffer.t * t) :=
  ' (result, a) <- DelegateAllocate (allocator_ l) requested minimal originator ;;
  ret (result, mk a).

Definition ReallocateInternal (l : t) (requested minimal : size_t)
    (buffer : Buffer.t) (originator : Z) : M (bool * Buffer.t * t) :=
  ' (ok, b, a) <-
    DelegateReallocate (allocator_ l) requested minimal buffer originator ;;
  ret (ok, b, mk a).

Definition FreeInternal (l : t) (buffer : Buffer.t) : M t :=
  a <- DelegateFree (allocator_ l) buffer ;;
  ret (mk a).

End WithDelegate.

Arguments t : clear implicits.

End MemoryLimit.

#[export] Instance MemoryLimit_BufferAllocator {D : Type} `{BufferAllocator D}
  : BufferAllocator (MemoryLimit.t D) :=
  { AllocateInternal := MemoryLimit.AllocateInternal;
    ReallocateInternal := MemoryLimit.ReallocateInternal;
    FreeInternal := MemoryLimit.FreeInternal;
    Available := MemoryLimit.Available }.

(** ** SoftQuotaBypassingBufferAllocator *)

Module SoftQuotaBypassingBufferAllocator.

Section WithDelegate.

Context {D : Type} `{BufferAllocator D}.

Record t : Type := mk
  { allocator_ : MemoryLimit.t D;   (* MemoryLimit with "infinite" limit *)
    bypassed_amount_ : size_t }.

Definition ctor (allocator : D) (bypassed_amount : size_t) : t :=
  mk (MemoryLimit.ctor2 SIZE_MAX allocator) bypassed_amount.

Definition Available (s : t) : size_t :=
  let usage := MemoryLimit.GetUsage (allocator_ s) in
  let available := MemoryLimit.Available (allocator_ s) in
  if usage <? bypassed_amount_ s
  then Z.max (size_sub (bypassed_amount_ s) usage) available
  else available.

Definition AdjustMinimal (s : t) (requested minimal : size_t) : size_t :=
  Z.min requested (Z.max minimal (Available s)).

Definition AllocateInternal (s : t) (requested minimal : size_t) (originator : Z)
  : M (option Buffer.t * t) :=
  ' (result, l) <-
    DelegateAllocate (allocator_ s) requested
      (AdjustMinimal s requested minimal) originator ;;
  match result with
  | Some b => ret (Some b, mk l (bypassed_amount_ s))
  | None =>
      ' (result2, l2) <- DelegateAllocate l requested minimal originator ;;
      ret (result2, mk l2 (bypassed_amount_ s))
  end.

Definition ReallocateInternal (s : t) (requested minimal : size_t)
    (buffer : Buffer.t) (originator : Z) : M (bool * Buffer.t * t) :=
  ' (ok, b, l) <-
    DelegateReallocate (allocator_ s) requested
      (AdjustMinimal s requested minimal) buffer originator ;;
  if ok : bool then ret (true, b, mk l (bypassed_amount_ s))
  else
    ' (ok2, b2, l2) <- DelegateReallocate l requested minimal b originator ;;
    ret (ok2, b2, mk l2 (bypassed_amount_ s)).

Definition FreeInternal (s : t) (buffer : Buffer.t) : M t :=
  l <- DelegateFree (allocator_ s) buffer ;;
  ret (mk l (bypassed_amount_ s)).

End WithDelegate.

Arguments t : clear implicits.

End SoftQuotaBypassingBufferAllocator.

#[export] Instance SoftQuotaBypassingBufferAllocator_BufferAllocator
    {D : Type} `{BufferAllocator D}
  : BufferAllocator (SoftQuotaBypassingBufferAllocator.t D) :=
  { AllocateInternal := SoftQuotaBypassingBufferAllocator.AllocateInternal;
    ReallocateInternal := SoftQuotaBypassingBufferAllocator.ReallocateInternal;
    FreeInternal := SoftQuotaBypassingBufferAllocator.FreeInternal;
    Available := SoftQuotaBypassingBufferAllocator.Available }.

(** ** ThreadSafeBufferAllocator

    Every method takes the mutex and forwards to the delegate. *)

Module ThreadSafeBufferAllocator.

Section WithDelegate.

Context {D : Type} `{BufferAllocator D}.

Record t : Type := mk { delegate_ : D }.

Definition Available (s : t) : size_t := Available (delegate_ s).

Definition AllocateInternal (s : t) (requested minimal : size_t) (originator : Z)
  : M (option Buffer.t * t) :=
  ' (result, d) <- DelegateAllocate (delegate_ s) requested minimal originator ;;
  ret (result, mk d).

Definition ReallocateInternal (s : t) (requested minimal : size_t)
    (buffer : Buffer.t) (originator : Z) : M (bool * Buffer.t * t) :=
  ' (ok, b, d) <-
    DelegateReallocate (delegate_ s) requested minimal buffer originator ;;
  ret (ok, b, mk d).

Definition FreeInternal (s : t) (buffer : Buffer.t) : M t :=
  d <- DelegateFree (delegate_ s) buffer ;;
  ret (mk d).

End WithDelegate.

Arguments t : clear implicits.

End ThreadSafeBufferAllocator.

#[export] Instance ThreadSafeBufferAllocator_BufferAllocator
    {D : Type} `{BufferAllocator D}
  : BufferAllocator (ThreadSafeBufferAllocator.t D) :=
  { AllocateInternal := ThreadSafeBufferAllocator.AllocateInternal;
    ReallocateInternal := ThreadSafeBufferAllocator.ReallocateInternal;
    FreeInternal := ThreadSafeBufferAllocator.FreeInternal;
    Available := ThreadSafeBufferAllocator.Available }.

(** ** GuaranteeMemory *)

(** [static_cast<int64_t>] of a [size_t]. *)
Definition to_int64 (z : size_t) : Z :=
  if z <? 2 ^ 63 then z else z - 2 ^ 64.

Module GuaranteeMemory.

Section WithDelegate.

Context {D : Type} `{BufferAllocator D}.

Record t : Type := mk
  { limit_ : MemoryLimit.t D;
    memory_guarantee_ : size_t }.

(** [GuaranteeMemory(size_t memory_quota, BufferAllocator* delegate)] *)
Definition ctor (memory_quota : size_t) (delegate : D) : t :=
  mk (MemoryLimit.ctor3 memory_quota true delegate) memory_quota.

Definition Available (g : t) : size_t :=
  size_sub (memory_guarantee_ g) (MemoryLimit.GetUsage (limit_ g)).

Definition AllocateInternal (g : t) (requested minimal : size_t) (originator : Z)
  : M (option Buffer.t * t) :=
  if Available g <? requested then ret (None, g)
  else
    ' (result, l) <- DelegateAllocate (limit_ g) requested requested originator ;;
    ret (result, mk l (memory_guarantee_ g)).

(** The source tests [buffer != nullptr]; [BestEffortReallocate], the
    one caller, sends null buffers to [AllocateInternal]. *)
Definition ReallocateInternal (g : t) (requested minimal : size_t)
    (buffer : Buffer.t) (originator : Z) : M (bool * Buffer.t * t) :=
  let additional_memory := to_int64 (size_sub requested (Buffer.size buffer)) in
  if additional_memory <=? to_int64 (Available g) then
    ' (ok, b, l) <-
      DelegateReallocate (limit_ g) requested requested buffer originator ;;
    ret (ok, b, mk l (memory_guarantee_ g))
  else ret (false, buffer, g).

Definition FreeInternal (g : t) (buffer : Buffer.t) : M t :=
  l <- DelegateFree (limit_ g) buffer ;;
  ret (mk l (memory_guarantee_ g)).

End WithDelegate.

Arguments t : clear implicits.

End GuaranteeMemory.

#[export] Instance GuaranteeMemory_BufferAllocator {D : Type} `{BufferAllocator D}
  : BufferAllocator (GuaranteeMemory.t D) :=
  { AllocateInternal := GuaranteeMemory.AllocateInternal;
    ReallocateInternal := GuaranteeMemory.ReallocateInternal;
    FreeInternal := GuaranteeMemory.FreeInternal;
    Available := GuaranteeMemory.Available }.

(** ** ThreadSafeMemoryLimit

    [OwningThreadSafeBufferAllocator<MemoryLimit>] is a
    [ThreadSafeBufferAllocator<MemoryLimit>] that also owns its delegate;
    the three accessors take the mutex and forward. *)

Module ThreadSafeMemoryLimit.

Section WithDelegate.

Context {D : Type} `{BufferAllocator D}.

Definition t : Type := ThreadSafeBufferAllocator.t (MemoryLimit.t D).

(** [ThreadSafeMemoryLimit(size_t quota, bool enforced,
    BufferAllocator* const delegate)] *)
Definition ctor (quota : size_t) (enforced : bool) (delegate : D) : t :=
  ThreadSafeBufferAllocator.mk (MemoryLimit.ctor3 quota enforced delegate).

Definition GetQuota (s : t) : size_t :=
  MemoryLimit.GetQuota (ThreadSafeBufferAllocator.delegate_ s).
Definition GetUsage (s : t) : size_t :=
  MemoryLimit.GetUsage (ThreadSafeBufferAllocator.delegate_ s).
Definition SetQuota (s : t) (quota : size_t) : t :=
  ThreadSafeBufferAllocator.mk
    (MemoryLimit.SetQuota (ThreadSafeBufferAllocator.delegate_ s) quota).

End WithDelegate.

Arguments t : clear implicits.

End ThreadSafeMemoryLimit.

(** ** OwningBufferAllocator<OwnedType>

    [owned_] is the vector of owned pointers, its back at the end of the
    list.  The destructor reports the pointers it hands to [delete], in
    the order of the calls, and the vector as the loop leaves it. *)

Module OwningBufferAllocator.

Section WithDelegate.

Context {D : Type} `{BufferAllocator D}.

Record t : Type := mk
  { owned_ : list Z;
    delegate_ : D }.

(** [explicit OwningBufferAllocator(BufferAllocator* const delegate)] *)
Definition ctor (delegate : D) : t := mk [] delegate.

(** [Add(OwnedType* p)]: [owned_.push_back(p)], and [this] is returned. *)
Definition Add (s : t) (p : Z) : t := mk (owned_ s ++ [p]) (delegate_ s).

(** The loop of the destructor,
    [while (!owned_.empty()) { p = owned_.back(); owned_.pop_back(); delete p; }],
    run for at most [fuel] iterations; [None] when they do not suffice. *)
Fixpoint dtor_loop (fuel : nat) (owned : list Z) {struct fuel}
  : option (list Z * list Z) :=
  match owned with
  | [] => Some ([], owned)
  | _ :: _ =>
      match fuel with
      | O => None
      | S fuel' =>
          let p := last owned 0 in
          match dtor_loop fuel' (removelast owned) with
          | Some (deleted, rest) => Some (p :: deleted, rest)
          | None => None
          end
      end
  end.

Definition dtor (fuel : nat) (s : t) : option (list Z * list Z) :=
  dtor_loop fuel (owned_ s).

Definition Available (s : t) : size_t := Available (delegate_ s).

Definition AllocateInternal (s : t) (requested minimal : size_t) (originator : Z)
  : M (option Buffer.t * t) :=
  ' (result, d) <- DelegateAllocate (delegate_ s) requested minimal originator ;;
  ret (result, mk (owned_ s) d).

Definition ReallocateInternal (s : t) (requested minimal : size_t)
    (buffer : Buffer.t) (originator : Z) : M (bool * Buffer.t * t) :=
  ' (ok, b, d) <-
    DelegateReallocate (delegate_ s) requested minimal buffer originator ;;
  ret (ok, b, mk (owned_ s) d).

Definition FreeInternal (s : t) (buffer : Buffer.t) : M t :=
  d <- DelegateFree (delegate_ s) buffer ;;
  ret (mk (owned_ s) d).

End WithDelegate.

Arguments t : clear implicits.

End OwningBufferAllocator.

#[export] Instance OwningBufferAllocator_BufferAllocator
    {D : Type} `{BufferAllocator D}
  : BufferAllocator (OwningBufferAllocator.t D) :=
  { AllocateInternal := OwningBufferAllocator.AllocateInternal;
    ReallocateInternal := OwningBufferAllocator.ReallocateInternal;
    FreeInternal := OwningBufferAllocator.FreeInternal;
    Available := OwningBufferAllocator.Available }.

(** ** Vocabulary of the statements

    Predicates, drivers and example states that the properties below
    are stated with; none of them is code of memory.h. *)

(** What [BestEffortAllocate] returns, in the shape of the result of
    [BestEffortReallocate] when no buffer object is passed in. *)
Definition without_buffer {A : Type} (o : outcome (option Buffer.t * A))
  : outcome (option Buffer.t * option Buffer.t * A) :=
  match o with
  | Fatal => Fatal
  | Done trace (result, a) => Done trace (result, None, a)
  end.

(** A buffer taken through a series of successful reallocations, each
    ending in [Update(new_data, new_size)]. *)
Fixpoint Updates (b : Buffer.t) (us : list (Z * size_t)) : M Buffer.t :=
  match us with
  | [] => ret b
  | (new_data, new_size) :: us' =>
      b' <- Buffer.Update b new_data new_size ;;
      Updates b' us'
  end.

Definition is_Overwrite (e : event) : Prop :=
  match e with Overwrite _ _ _ => True | LogLine _ _ => False end.

(** An allocator whose [ReallocateInternal] hands the buffer back with
    the allocator tag it came with. *)
Class KeepsAllocatorTag (A : Type) `{BufferAllocator A} : Prop :=
  realloc_keeps_tag :
    forall (a : A) (requested minimal : size_t) (buffer : Buffer.t) (originator : Z)
           (dbg : bool) (t : list event) (ok : bool) (b' : Buffer.t) (a' : A),
      ReallocateInternal a requested minimal buffer originator dbg = Done t (ok, b', a') ->
      Buffer.allocator_ b' = Buffer.allocator_ buffer.

(** The contract of [BestEffortAllocate], asked of a delegate: a buffer
    that is returned has a size in [[minimal, requested]]. *)
Class GrantsWithinBounds (A : Type) `{BufferAllocator A} : Prop :=
  grant_within_bounds :
    forall (a a' : A) (requested minimal : size_t) (originator : Z)
           (dbg : bool) (t : list event) (b : Buffer.t),
      minimal <= requested ->
      AllocateInternal a requested minimal originator dbg = Done t (Some b, a') ->
      minimal <= Buffer.size b <= requested.

(** The state of a [GuaranteeMemory] as its constructor builds it and
    its methods keep it: an enforced limit whose quota is the guarantee
    and whose usage is within it. *)
Definition GuaranteeMemory_wf {D : Type} `{BufferAllocator D}
    (g : GuaranteeMemory.t D) : Prop :=
  let q := MemoryLimit.quota_ (GuaranteeMemory.limit_ g) in
  Quota.wf q /\
  Quota.enforced_ q = true /\
  Quota.quota_ q = GuaranteeMemory.memory_guarantee_ g /\
  Quota.usage_ q <= Quota.quota_ q.

(** A heap with room for a thousand bytes, for closed examples. *)
Definition example_heap : HeapBufferAllocator.t :=
  HeapBufferAllocator.mk false 4096 1000.

(** [n] calls of [Allocate(1, 1)] on a quota, one after the other: the
    grants in order, and the quota at the end. *)
Fixpoint Allocate_times (n : nat) (q : Quota.t) : M (list size_t * Quota.t) :=
  match n with
  | O => ret ([], q)
  | S n' =>
      ' (a, q1) <- Quota.Allocate q 1 1 ;;
      ' (grants, q2) <- Allocate_times n' q1 ;;
      ret (a :: grants, q2)
  end.

(** A call of [Allocate] or [Free] on a quota, and a run of such calls
    that returns the grants in order. *)
Inductive quota_call : Type :=
| CallAllocate (requested minimal : size_t)
| CallFree (amount : size_t).

Fixpoint run_quota (cs : list quota_call) (q : Quota.t)
  : M (list size_t * Quota.t) :=
  match cs with
  | [] => ret ([], q)
  | CallAllocate requested minimal :: cs' =>
      ' (a, q1) <- Quota.Allocate q requested minimal ;;
      ' (grants, q2) <- run_quota cs' q1 ;;
      ret (a :: grants, q2)
  | CallFree amount :: cs' =>
      q1 <- Quota.Free q amount ;;
      run_quota cs' q1
  end.

(** The precondition of a call that can be read off the call. *)
Definition valid_call (c : quota_call) : Prop :=
  match c with
  | CallAllocate requested minimal => 0 <= minimal <= requested
  | CallFree amount => 0 <= amount
  end.

(** No [Free] of the run returns more than the usage booked at that
    point: [usage] at the start, plus the grants so far, less the
    amounts freed so far. *)
Fixpoint frees_covered (cs : list quota_call) (usage : Z) (grants : list size_t)
  : Prop :=
  match cs with
  | [] => True
  | CallAllocate _ _ :: cs' =>
      match grants with
      | a :: grants' => frees_covered cs' (usage + a) grants'
      | [] => False
      end
  | CallFree amount :: cs' =>
      amount <= usage /\ frees_covered cs' (usage - amount) grants
  end.

Definition sum_Z (l : list Z) : Z := fold_right Z.add 0 l.

Definition freed (cs : list quota_call) : Z :=
  sum_Z (map (fun c => match c with CallFree a => a | CallAllocate _ _ => 0 end) cs).

Definition is_ERROR (e : event) : Prop :=
  match e with LogLine ERROR _ => True | _ => False end.

(** A call of one of the three internal methods of an allocator, what
    it returned, and a run of such calls. *)
Inductive internal_call : Type :=
| DoAllocate (requested minimal : size_t) (originator : Z)
| DoReallocate (requested minimal : size_t) (buffer : Buffer.t) (originator : Z)
| DoFree (buffer : Buffer.t).

Inductive internal_return : Type :=
| Allocated (result : option Buffer.t)
| Reallocated (ok : bool) (buffer : Buffer.t)
| Freed.

Definition call_internal {A : Type} `{BufferAllocator A} (a : A) (c : internal_call)
  : M (internal_return * A) :=
  match c with
  | DoAllocate requested minimal originator =>
      ' (result, a') <- AllocateInternal a requested minimal originator ;;
      ret (Allocated result, a')
  | DoReallocate requested minimal buffer originator =>
      ' (ok, b, a') <- ReallocateInternal a requested minimal buffer originator ;;
      ret (Reallocated ok b, a')
  | DoFree buffer =>
      a' <- FreeInternal a buffer ;;
      ret (Freed, a')
  end.

Fixpoint run_internal {A : Type} `{BufferAllocator A} (cs : list internal_call) (a : A)
  : M (list internal_return * A) :=
  match cs with
  | [] => ret ([], a)
  | c :: cs' =>
      ' (r, a1) <- call_internal a c ;;
      ' (rs, a2) <- run_internal cs' a1 ;;
      ret (r :: rs, a2)
  end.

(** The outcome of a run on a delegate, seen through a wrapper. *)
Definition wrapped {X D W : Type} (wrap : D -> W) (o : outcome (X * D))
  : outcome (X * W) :=
  match o with
  | Fatal => Fatal
  | Done t (x, d) => Done t (x, wrap d)
  end.

(** A wrapper whose three internal methods forward to the delegate and
    re-wrap its state. *)
Definition forwards {D W : Type} `{BufferAllocator D} `{BufferAllocator W}
    (wrap : D -> W) : Prop :=
  forall (d : D) (c : internal_call) (dbg : bool),
    call_internal (wrap d) c dbg = wrapped wrap (call_internal d c dbg).


(** * Properties *)

(** ** Arithmetic of [size_t] *)

Lemma SIZE_MAX_value : SIZE_MAX = 18446744073709551615.
Proof. reflexivity. Qed.

Lemma size_wrap_small (z : Z) : is_size_t z -> size_wrap z = z.
Proof.
  unfold is_size_t, size_wrap. rewrite SIZE_MAX_value.
  intros H. apply Z.mod_small. change SIZE_MODULUS with 18446744073709551616. lia.
Qed.

Lemma size_wrap_range (z : Z) : is_size_t (size_wrap z).
Proof.
  unfold is_size_t, size_wrap. rewrite SIZE_MAX_value.
  pose proof (Z.mod_pos_bound z SIZE_MODULUS eq_refl) as H.
  change SIZE_MODULUS with 18446744073709551616 in *. lia.
Qed.

Lemma size_sub_exact (x y : Z) :
  is_size_t x -> is_size_t y -> y <= x -> size_sub x y = x - y.
Proof.
  unfold size_sub, is_size_t. intros Hx Hy Hle.
  apply size_wrap_small. unfold is_size_t. lia.
Qed.

Lemma size_add_exact (x y : Z) :
  0 <= x -> 0 <= y -> x + y <= SIZE_MAX -> size_add x y = x + y.
Proof.
  unfold size_add. intros Hx Hy Hle.
  apply size_wrap_small. unfold is_size_t. lia.
Qed.

(** A subtraction that goes below zero comes back from the top. *)
Lemma size_sub_borrow (x y : Z) :
  is_size_t x -> is_size_t y -> x < y -> size_sub x y = SIZE_MODULUS + x - y.
Proof.
  unfold size_sub, size_wrap, is_size_t. rewrite SIZE_MAX_value.
  change SIZE_MODULUS with 18446744073709551616.
  intros Hx Hy Hlt. symmetry.
  apply (Z.mod_unique (x - y) 18446744073709551616 (-1)); lia.
Qed.

(** ** Running the monad *)

Lemma DCHECK_LE_holds (dbg : bool) (x y : Z) :
  x <= y -> DCHECK_LE x y dbg = Done [] tt.
Proof.
  intros H. unfold DCHECK_LE.
  destruct (Z.ltb_spec y x); [lia|]. now rewrite andb_false_r.
Qed.

Lemma DCHECK_LE_release (x y : Z) : DCHECK_LE x y false = Done [] tt.
Proof. reflexivity. Qed.

Lemma DCHECK_LE_debug_fails (x y : Z) : y < x -> DCHECK_LE x y true = Fatal.
Proof.
  intros H. unfold DCHECK_LE. destruct (Z.ltb_spec y x); [reflexivity|lia].
Qed.

Lemma bind_Done {A B : Type} (m : M A) (k : A -> M B) (dbg : bool)
    (t : list event) (a : A) :
  m dbg = Done t a ->
  bind m k dbg =
    match k a dbg with Fatal => Fatal | Done t2 b => Done (t ++ t2) b end.
Proof. intros H. unfold bind. now rewrite H. Qed.

Lemma bind_Fatal {A B : Type} (m : M A) (k : A -> M B) (dbg : bool) :
  m dbg = Fatal -> bind m k dbg = Fatal.
Proof. intros H. unfold bind. now rewrite H. Qed.

(** ** Quota::Allocate, Quota::Free, Quota::Available *)

Section QuotaArithmetic.

Variable q : Quota.t.
Hypothesis q_wf : Quota.wf q.

Let usage := Quota.usage_ q.
Let quota := Quota.quota_ q.

(** The test of the source, [usage_ > quota || minimal > quota - usage_],
    read over the integers. *)
Lemma out_of_quota_test (minimal : size_t) :
  0 <= minimal ->
  ((quota <? usage) || (size_sub quota usage <? minimal) = true
   <-> (usage > quota \/ minimal > quota - usage)).
Proof.
  intros Hm. destruct q_wf as [Hu Hq]. fold usage in Hu. fold quota in Hq.
  rewrite orb_true_iff, !Z.ltb_lt.
  destruct (Z_lt_le_dec quota usage) as [Hlt|Hle].
  - split; intros _; left; lia.
  - rewrite (size_sub_exact quota usage Hq Hu Hle). lia.
Qed.

End QuotaArithmetic.

Lemma set_usage_same (q : Quota.t) : Quota.set_usage q (Quota.usage_ q) = q.
Proof. now destruct q. Qed.

(** The one fatal path of the quota: in a debug build [Allocate] aborts
    on [minimal > requested]; a release build has no check. *)
Lemma Quota_Allocate_debug_precondition (q : Quota.t) (requested minimal : size_t) :
  requested < minimal -> Quota.Allocate q requested minimal true = Fatal.
Proof.
  intros Hbad. unfold Quota.Allocate.
  apply bind_Fatal. apply DCHECK_LE_debug_fails. exact Hbad.
Qed.

(** In quota: the grant is [min(requested, quota - usage)], nothing is
    logged, and the usage grows by the grant without passing the quota. *)
Lemma Quota_Allocate_in_quota (dbg : bool) (q : Quota.t) (requested minimal : size_t) :
  Quota.wf q -> 0 <= minimal <= requested ->
  Quota.usage_ q <= Quota.quota_ q ->
  minimal <= Quota.quota_ q - Quota.usage_ q ->
  Quota.Allocate q requested minimal dbg =
    Done [] (Z.min requested (Quota.quota_ q - Quota.usage_ q),
             Quota.set_usage q
               (Quota.usage_ q + Z.min requested (Quota.quota_ q - Quota.usage_ q))).
Proof.
  intros Hwf Hm Hle Hroom. pose proof Hwf as [Hu Hq].
  unfold Quota.Allocate.
  rewrite (bind_Done _ _ _ _ _ (DCHECK_LE_holds dbg _ _ (proj2 Hm))).
  unfold Quota.GetQuotaInternal.
  destruct ((Quota.quota_ q <? Quota.usage_ q)
            || (size_sub (Quota.quota_ q) (Quota.usage_ q) <? minimal)) eqn:E.
  - apply (out_of_quota_test q Hwf) in E; lia.
  - rewrite (size_sub_exact _ _ Hq Hu Hle). cbn.
    rewrite size_add_exact; [reflexivity| | |]; unfold is_size_t in *; lia.
Qed.

(** Out of quota: a warning is logged; the grant is [minimal] when the
    quota is not enforced and [usage + minimal] fits a [size_t], and
    [0] otherwise. *)
Lemma Quota_Allocate_out_of_quota (dbg : bool) (q : Quota.t) (requested minimal : size_t) :
  Quota.wf q -> 0 <= minimal <= requested ->
  Quota.usage_ q > Quota.quota_ q \/ minimal > Quota.quota_ q - Quota.usage_ q ->
  let granted :=
    if negb (Quota.enforced_ q) && (minimal <=? SIZE_MAX - Quota.usage_ q)
    then minimal else 0 in
  Quota.Allocate q requested minimal dbg =
    Done [LogLine WARNING
            (OutOfQuota requested minimal (Quota.quota_ q) (Quota.usage_ q)
               (Quota.enforced_ q) (negb (granted =? 0)))]
         (granted, Quota.set_usage q (Quota.usage_ q + granted)).
Proof.
  intros Hwf Hm Hooq granted. pose proof Hwf as [Hu Hq].
  unfold Quota.Allocate.
  rewrite (bind_Done _ _ _ _ _ (DCHECK_LE_holds dbg _ _ (proj2 Hm))).
  unfold Quota.GetQuotaInternal, Quota.enforced.
  apply (out_of_quota_test q Hwf minimal (proj1 Hm)) in Hooq. rewrite Hooq.
  assert (Hmax : is_size_t SIZE_MAX) by (unfold is_size_t; rewrite SIZE_MAX_value; lia).
  rewrite (size_sub_exact SIZE_MAX _ Hmax Hu (proj2 Hu)). fold granted.
  assert (Hg : 0 <= granted /\ Quota.usage_ q + granted <= SIZE_MAX).
  { subst granted. destruct (negb (Quota.enforced_ q)); cbn.
    - destruct (Z.leb_spec minimal (SIZE_MAX - Quota.usage_ q)); unfold is_size_t in *; lia.
    - unfold is_size_t in *; lia. }
  cbn. rewrite size_add_exact; [reflexivity| | |]; unfold is_size_t in *; lia.
Qed.

(** Out of quota under enforcement: denied, and the quota is as before. *)
Lemma Quota_Allocate_denied (dbg : bool) (q : Quota.t) (requested minimal : size_t) :
  Quota.wf q -> Quota.enforced_ q = true -> 0 <= minimal <= requested ->
  Quota.usage_ q > Quota.quota_ q \/ minimal > Quota.quota_ q - Quota.usage_ q ->
  Quota.Allocate q requested minimal dbg =
    Done [LogLine WARNING
            (OutOfQuota requested minimal (Quota.quota_ q) (Quota.usage_ q) true false)]
         (0, q).
Proof.
  intros Hwf Henf Hm Hooq.
  rewrite (Quota_Allocate_out_of_quota dbg q requested minimal Hwf Hm Hooq).
  rewrite Henf. unfold negb. rewrite andb_false_l, Z.add_0_r.
  now rewrite set_usage_same.
Qed.

(** C1.  Enforced quota, [usage <= limit], [minimal <= requested]: when
    [minimal <= limit - usage], [Allocate] returns
    [min(requested, limit - usage)] and has added exactly that to the
    usage, which stays within the limit; when [usage > limit] or
    [minimal > limit - usage] it returns [0] and the quota is as before. *)
Theorem Quota_Allocate_enforced (dbg : bool) (q : Quota.t) (requested minimal : size_t) :
  Quota.wf q ->
  Quota.enforced_ q = true ->
  0 <= minimal <= requested ->
  (Quota.usage_ q <= Quota.quota_ q ->
   minimal <= Quota.quota_ q - Quota.usage_ q ->
   exists granted q',
     Quota.Allocate q requested minimal dbg = Done [] (granted, q') /\
     granted = Z.min requested (Quota.quota_ q - Quota.usage_ q) /\
     Quota.usage_ q' = Quota.usage_ q + granted /\
     Quota.quota_ q' = Quota.quota_ q /\
     Quota.enforced_ q' = true /\
     Quota.usage_ q' <= Quota.quota_ q')
  /\
  (Quota.usage_ q > Quota.quota_ q \/ minimal > Quota.quota_ q - Quota.usage_ q ->
   exists trace,
     Quota.Allocate q requested minimal dbg = Done trace (0, q)).
Proof.
  intros Hwf Henf Hm. split.
  - intros Hle Hroom.
    eexists _, _. split; [apply Quota_Allocate_in_quota; assumption|].
    cbn. repeat split; try assumption; lia.
  - intros Hooq. eexists.
    apply Quota_Allocate_denied; assumption.
Qed.

Lemma Quota_Allocate_enforced_witness :
  (exists granted q',
     Quota.Allocate (Quota.mk 40 true 100) 80 10 true = Done [] (granted, q') /\
     granted = Z.min 80 (100 - 40) /\
     Quota.usage_ q' = 40 + granted /\
     Quota.quota_ q' = 100 /\
     Quota.enforced_ q' = true /\
     Quota.usage_ q' <= Quota.quota_ q')
  /\ (exists trace,
        Quota.Allocate (Quota.mk 95 true 100) 80 10 true
          = Done trace (0, Quota.mk 95 true 100)).
Proof.
  split.
  - refine (proj1 (Quota_Allocate_enforced true (Quota.mk 40 true 100) 80 10 _ _ _) _ _).
    + split; split; vm_compute; discriminate.
    + reflexivity.
    + lia.
    + vm_compute; discriminate.
    + vm_compute; discriminate.
  - refine (proj2 (Quota_Allocate_enforced true (Quota.mk 95 true 100) 80 10 _ _ _) _).
    + split; split; vm_compute; discriminate.
    + reflexivity.
    + lia.
    + right. vm_compute. reflexivity.
Defined.

Lemma Quota_Available_value (q : Quota.t) :
  Quota.wf q ->
  Quota.Available q =
    if Quota.quota_ q <=? Quota.usage_ q then 0
    else Quota.quota_ q - Quota.usage_ q.
Proof.
  intros [Hu Hq]. unfold Quota.Available, Quota.GetQuotaInternal.
  destruct (Z.leb_spec (Quota.quota_ q) (Quota.usage_ q)); [reflexivity|].
  apply size_sub_exact; [assumption..|lia].
Qed.

(** C2.  Advisory (not enforced) quota, out of quota, [usage + minimal]
    fitting a [size_t]: [Allocate] grants exactly [minimal] and adds it
    to the usage; and when the usage has reached the limit, [Available]
    is [0], before the call and after it. *)
Theorem Quota_Allocate_advisory_out_of_quota
    (dbg : bool) (q : Quota.t) (requested minimal : size_t) :
  Quota.wf q ->
  Quota.enforced_ q = false ->
  0 <= minimal <= requested ->
  Quota.usage_ q > Quota.quota_ q \/ minimal > Quota.quota_ q - Quota.usage_ q ->
  Quota.usage_ q + minimal <= SIZE_MAX ->
  exists trace q',
    Quota.Allocate q requested minimal dbg = Done trace (minimal, q') /\
    Quota.usage_ q' = Quota.usage_ q + minimal /\
    Quota.quota_ q' = Quota.quota_ q /\
    Quota.enforced_ q' = false /\
    (Quota.usage_ q >= Quota.quota_ q ->
     Quota.Available q = 0 /\ Quota.Available q' = 0).
Proof.
  intros Hwf Henf Hm Hooq Hfit.
  pose proof (Quota_Allocate_out_of_quota dbg q requested minimal Hwf Hm Hooq) as H.
  rewrite Henf in H. unfold negb in H. rewrite andb_true_l in H.
  destruct (Z.leb_spec minimal (SIZE_MAX - Quota.usage_ q)) as [_|Hbad]; [|lia].
  eexists _, _. split; [exact H|].
  split; [reflexivity|]. split; [reflexivity|]. split; [exact Henf|].
  intros Hover. split.
  - unfold Quota.Available, Quota.GetQuotaInternal.
    destruct (Z.leb_spec (Quota.quota_ q) (Quota.usage_ q)); [reflexivity|lia].
  - unfold Quota.Available, Quota.GetQuotaInternal, Quota.set_usage.
    cbn [Quota.quota_ Quota.usage_].
    destruct (Z.leb_spec (Quota.quota_ q) (Quota.usage_ q + minimal)); [reflexivity|lia].
Qed.

Lemma Quota_Allocate_advisory_out_of_quota_witness :
  exists trace q',
    Quota.Allocate (Quota.mk 10 false 10) 100 5 true = Done trace (5, q') /\
    Quota.usage_ q' = 10 + 5 /\
    Quota.quota_ q' = 10 /\
    Quota.enforced_ q' = false /\
    (10 >= 10 -> Quota.Available (Quota.mk 10 false 10) = 0 /\ Quota.Available q' = 0).
Proof.
  apply (Quota_Allocate_advisory_out_of_quota true (Quota.mk 10 false 10) 100 5).
  - split; split; vm_compute; discriminate.
  - reflexivity.
  - lia.
  - right. vm_compute. reflexivity.
  - vm_compute. discriminate.
Defined.

(** Free of an amount that the usage covers: plain subtraction, nothing
    logged as long as the usage was not itself suspiciously big. *)
Lemma Quota_Free_covered (dbg : bool) (q : Quota.t) (amount : size_t) :
  Quota.wf q -> 0 <= amount <= Quota.usage_ q ->
  Quota.usage_ q - amount <= SIZE_MAX - 2 ^ 28 ->
  Quota.Free q amount dbg = Done [] (Quota.set_usage q (Quota.usage_ q - amount)).
Proof.
  intros [Hu Hq] Ha Hsmall. unfold Quota.Free.
  assert (Hamt : is_size_t amount) by (unfold is_size_t in *; lia).
  rewrite (size_sub_exact _ _ Hu Hamt (proj2 Ha)).
  change (size_sub SIZE_MAX (Z.shiftl 1 28)) with (SIZE_MAX - 2 ^ 28).
  unfold Quota.set_usage at 1. unfold Quota.usage_ at 1.
  destruct (Z.ltb_spec (SIZE_MAX - 2 ^ 28) (Quota.usage_ q - amount)); [lia|reflexivity].
Qed.

(** C3.  An enforced quota with limit [L >= 1], fresh from its
    constructor: [Allocate(L, L)] grants [L] and the usage is [L]; then
    [Allocate(1, 1)] returns [0] and the usage stays [L]; then [Free(L)]
    brings the usage to [0]; then [Allocate(1, 1)] grants [1]. *)
Theorem Quota_fill_deny_free_regrant (dbg : bool) (L : size_t) :
  1 <= L <= SIZE_MAX ->
  exists q1 trace2 q3 q4,
    Quota.Allocate (Quota.ctor L true) L L dbg = Done [] (L, q1) /\
    Quota.usage_ q1 = L /\
    Quota.Allocate q1 1 1 dbg = Done trace2 (0, q1) /\
    Quota.Free q1 L dbg = Done [] q3 /\
    Quota.usage_ q3 = 0 /\
    Quota.Allocate q3 1 1 dbg = Done [] (1, q4) /\
    Quota.usage_ q4 = 1.
Proof.
  intros HL.
  assert (Hwf : forall u, 0 <= u <= L -> Quota.wf (Quota.mk u true L)).
  { intros u Hu. split; unfold is_size_t; cbn [Quota.usage_ Quota.quota_]; lia. }
  exists (Quota.mk L true L), [LogLine WARNING (OutOfQuota 1 1 L L true false)],
         (Quota.mk 0 true L), (Quota.mk 1 true L).
  repeat split.
  - unfold Quota.ctor.
    rewrite Quota_Allocate_in_quota; cbn [Quota.usage_ Quota.quota_];
      [|apply Hwf; lia|lia..].
    rewrite Z.sub_0_r, Z.min_id. reflexivity.
  - rewrite Quota_Allocate_out_of_quota; cbn [Quota.usage_ Quota.quota_ Quota.enforced_];
      [|apply Hwf; lia|lia|right; lia].
    unfold negb. rewrite andb_false_l. rewrite Z.add_0_r. reflexivity.
  - rewrite Quota_Free_covered; cbn [Quota.usage_ Quota.quota_];
      [|apply Hwf; lia|lia|rewrite SIZE_MAX_value; lia].
    rewrite Z.sub_diag. reflexivity.
  - rewrite Quota_Allocate_in_quota; cbn [Quota.usage_ Quota.quota_];
      [|apply Hwf; lia|lia..].
    rewrite Z.sub_0_r, Z.min_l by lia. reflexivity.
Qed.

Lemma Quota_fill_deny_free_regrant_witness :
  exists q1 trace2 q3 q4,
    Quota.Allocate (Quota.ctor 100 true) 100 100 true = Done [] (100, q1) /\
    Quota.usage_ q1 = 100 /\
    Quota.Allocate q1 1 1 true = Done trace2 (0, q1) /\
    Quota.Free q1 100 true = Done [] q3 /\
    Quota.usage_ q3 = 0 /\
    Quota.Allocate q3 1 1 true = Done [] (1, q4) /\
    Quota.usage_ q4 = 1.
Proof.
  apply (Quota_fill_deny_free_regrant true 100).
  split; vm_compute; discriminate.
Defined.

(** [Free] in full: it always returns, with the usage reduced modulo
    [2^64], and logs one error line exactly when the new usage is above
    [SIZE_MAX - 2^28]. *)
Lemma Quota_Free_run (dbg : bool) (q : Quota.t) (amount : size_t) :
  Quota.Free q amount dbg =
    Done (if SIZE_MAX - 2 ^ 28 <? size_sub (Quota.usage_ q) amount
          then [LogLine ERROR (SuspiciouslyBigUsage (size_sub (Quota.usage_ q) amount))]
          else [])
         (Quota.set_usage q (size_sub (Quota.usage_ q) amount)).
Proof.
  unfold Quota.Free.
  change (size_sub SIZE_MAX (Z.shiftl 1 28)) with (SIZE_MAX - 2 ^ 28).
  cbn [Quota.set_usage Quota.usage_].
  destruct (SIZE_MAX - 2 ^ 28 <? size_sub (Quota.usage_ q) amount); reflexivity.
Qed.

(** C4, as the code has it.  [Free] never aborts, in a debug build or a
    release build: the usage becomes [(usage - amount) mod 2^64].  Its
    only signal is an ERROR log line, emitted exactly when the new usage
    exceeds [SIZE_MAX - 2^28]; when the subtraction goes below zero that
    is exactly when it does so by at most [2^28], and a deeper underflow
    wraps with an empty trace. *)
Theorem Quota_Free_wraps_and_logs (dbg : bool) (q : Quota.t) (amount : size_t) :
  Quota.wf q -> is_size_t amount ->
  exists trace q',
    Quota.Free q amount dbg = Done trace q' /\
    Quota.usage_ q' = (Quota.usage_ q - amount) mod 2 ^ 64 /\
    Quota.quota_ q' = Quota.quota_ q /\
    Quota.enforced_ q' = Quota.enforced_ q /\
    (trace = [LogLine ERROR (SuspiciouslyBigUsage (Quota.usage_ q'))] \/ trace = []) /\
    (trace <> [] <-> Quota.usage_ q' > SIZE_MAX - 2 ^ 28) /\
    (Quota.usage_ q < amount ->
     Quota.usage_ q' = 2 ^ 64 - (amount - Quota.usage_ q) /\
     (trace <> [] <-> amount - Quota.usage_ q <= 2 ^ 28)).
Proof.
  intros [Hu Hq] Ha. eexists _, _. split; [apply Quota_Free_run|].
  cbn [Quota.set_usage Quota.usage_ Quota.quota_ Quota.enforced_].
  split; [reflexivity|]. split; [reflexivity|]. split; [reflexivity|].
  assert (Hlog : forall u : Z,
             (if SIZE_MAX - 2 ^ 28 <? u
              then [LogLine ERROR (SuspiciouslyBigUsage u)] else []) <> []
             <-> u > SIZE_MAX - 2 ^ 28).
  { intros u. destruct (Z.ltb_spec (SIZE_MAX - 2 ^ 28) u); split;
      try discriminate; try lia; intros; congruence. }
  split; [|split].
  - destruct (SIZE_MAX - 2 ^ 28 <? size_sub (Quota.usage_ q) amount); auto.
  - apply Hlog.
  - intros Hlt. rewrite (size_sub_borrow _ _ Hu Ha Hlt).
    change SIZE_MODULUS with (2 ^ 64). split; [lia|].
    rewrite Hlog. rewrite SIZE_MAX_value. lia.
Qed.

Lemma Quota_Free_wraps_and_logs_witness :
  exists trace q',
    Quota.Free (Quota.mk 5 true 100) 7 true = Done trace q' /\
    Quota.usage_ q' = (5 - 7) mod 2 ^ 64 /\
    Quota.quota_ q' = 100 /\
    Quota.enforced_ q' = true /\
    (trace = [LogLine ERROR (SuspiciouslyBigUsage (Quota.usage_ q'))] \/ trace = []) /\
    (trace <> [] <-> Quota.usage_ q' > SIZE_MAX - 2 ^ 28) /\
    (5 < 7 ->
     Quota.usage_ q' = 2 ^ 64 - (7 - 5) /\
     (trace <> [] <-> 7 - 5 <= 2 ^ 28)).
Proof.
  apply (Quota_Free_wraps_and_logs true (Quota.mk 5 true 100) 7).
  - split; split; vm_compute; discriminate.
  - split; vm_compute; discriminate.
Defined.

(** C4, as the specification states it, fails.  In a debug build, on a
    quota with usage [0], [Free(2^28 + 1)] takes the usage below zero by
    more than [2^28]: the call returns normally, nothing is logged, and
    the usage has wrapped to [2^64 - 2^28 - 1]. *)
Lemma Quota_Free_deep_underflow_is_silent :
  Quota.usage_ (Quota.ctor 100 true) - (2 ^ 28 + 1) < - 2 ^ 28 /\
  Quota.Free (Quota.ctor 100 true) (2 ^ 28 + 1) true
    = Done [] (Quota.mk (2 ^ 64 - 2 ^ 28 - 1) true 100) /\
  Quota.Free (Quota.ctor 100 true) (2 ^ 28 + 1) true <> Fatal.
Proof.
  split; [vm_compute; reflexivity|].
  assert (E : Quota.Free (Quota.ctor 100 true) (2 ^ 28 + 1) true
              = Done [] (Quota.mk (2 ^ 64 - 2 ^ 28 - 1) true 100))
    by (vm_compute; reflexivity).
  split; [exact E|]. rewrite E. discriminate.
Qed.

(** ** The public methods of BufferAllocator *)


(** C10.  On every allocator, for every [requested] and [minimal] (so
    also whenever [minimal <= requested]) and in both build modes,
    [BestEffortReallocate(requested, minimal, nullptr)] is a fresh
    allocation: the same check, the same call of [AllocateInternal] with
    the same originator, the same log call, the same result and the
    same allocator state as [BestEffortAllocate(requested, minimal)];
    and [Allocate(requested)] is
    [BestEffortAllocate(requested, requested)]. *)
Theorem BestEffortReallocate_null_is_BestEffortAllocate
    {A : Type} `{BufferAllocator A} `{LogAllocationImpl}
    (dbg : bool) (this : Z) (a : A) (requested minimal : size_t) :
  BestEffortReallocate this a requested minimal None dbg
    = without_buffer (BestEffortAllocate this a requested minimal dbg)
  /\ Allocate this a requested dbg
     = BestEffortAllocate this a requested requested dbg.
Proof.
  split; [|reflexivity].
  unfold BestEffortReallocate, BestEffortAllocate, without_buffer, bind.
  destruct (DCHECK_LE minimal requested dbg) as [t0 []|]; [|reflexivity].
  destruct (AllocateInternal a requested minimal this dbg) as [t1 [result a']|];
    [|reflexivity].
  destruct (LogAllocation requested minimal result dbg) as [t2 []|]; reflexivity.
Qed.

(** ** Buffer::Update *)


Lemma Buffer_Update_run (dbg : bool) (b : Buffer.t) (new_data : Z) (new_size : size_t) :
  Buffer.Update b new_data new_size dbg =
    Done (if dbg && (Buffer.size_ b <? new_size)
          then [Overwrite (new_data + Buffer.size_ b) (new_size - Buffer.size_ b) "NEW"]
          else [])
         (Buffer.mk new_data new_size (Buffer.allocator_ b)).
Proof.
  unfold Buffer.Update, bind, when_debug, ret.
  destruct dbg; [|reflexivity].
  destruct (Buffer.size_ b <? new_size); reflexivity.
Qed.

Lemma last_nonempty_default {X : Type} (x : X) (l : list X) (d1 d2 : X) :
  last (x :: l) d1 = last (x :: l) d2.
Proof.
  revert x. induction l as [|y l IH]; intros x; [reflexivity|].
  change (last (y :: l) d1 = last (y :: l) d2). apply IH.
Qed.

Lemma Updates_keep_allocator (dbg : bool) (us : list (Z * size_t)) :
  forall b : Buffer.t,
  exists trace b',
    Updates b us dbg = Done trace b' /\
    Buffer.allocator_ b' = Buffer.allocator_ b /\
    (Buffer.data_ b', Buffer.size_ b')
      = last us (Buffer.data_ b, Buffer.size_ b) /\
    Forall is_Overwrite trace.
Proof.
  induction us as [|[nd ns] us IH]; intros b.
  - exists [], b. repeat split. constructor.
  - cbn [Updates]. rewrite (bind_Done _ _ _ _ _ (Buffer_Update_run dbg b nd ns)).
    destruct (IH (Buffer.mk nd ns (Buffer.allocator_ b))) as (t & b' & E & Ha & Hl & Ht).
    rewrite E. eexists _, b'. split; [reflexivity|].
    split; [exact Ha|]. split.
    + rewrite Hl. cbn [Buffer.data_ Buffer.size_].
      destruct us as [|u us']; [reflexivity|].
      change (last (u :: us') (nd, ns)
              = last (u :: us') (Buffer.data_ b, Buffer.size_ b)).
      apply last_nonempty_default.
    + apply Forall_app. split; [|exact Ht].
      destruct (dbg && (Buffer.size_ b <? ns)); repeat constructor.
Qed.

(** C8.  A buffer comes out of its constructor tagged with the allocator
    passed in; [Update], which a successful realloc calls, gives it the
    new data pointer and the new size and leaves [allocator_] as it was
    (the debug overwrite touches the bytes pointed to, not the object);
    and so after any series of reallocations the buffer still names the
    allocator of its creation, with the data pointer and size of the
    last one. *)
Theorem Buffer_Update_keeps_allocator
    (dbg : bool) (b : Buffer.t) (new_data : Z) (new_size : size_t)
    (data : Z) (size : size_t) (originator : Z) (us : list (Z * size_t)) :
  (CreateBuffer data size originator dbg = Fatal /\ data = 0
   \/ exists trace,
        CreateBuffer data size originator dbg
          = Done trace (Buffer.mk data size originator) /\
        Forall is_Overwrite trace)
  /\ (exists trace,
        UpdateBuffer new_data new_size b dbg
          = Done trace (Buffer.mk new_data new_size (Buffer.allocator_ b)) /\
        Forall is_Overwrite trace)
  /\ (exists trace b',
        Updates b us dbg = Done trace b' /\
        Buffer.allocator_ b' = Buffer.allocator_ b /\
        (Buffer.data_ b', Buffer.size_ b') = last us (Buffer.data_ b, Buffer.size_ b) /\
        Forall is_Overwrite trace).
Proof.
  split; [|split].
  - unfold CreateBuffer, Buffer.ctor, bind, CHECK_NOTNULL, when_debug, ret.
    destruct (Z.eqb_spec data 0) as [E|E]; [left; now split|right].
    destruct dbg; eexists; (split; [reflexivity|repeat constructor]).
  - unfold UpdateBuffer. rewrite Buffer_Update_run. eexists. split; [reflexivity|].
    destruct (dbg && (Buffer.size_ b <? new_size)); repeat constructor.
  - apply Updates_keep_allocator.
Qed.

(** *** Reallocation through a chain of allocators *)

Lemma bind_inv {A B : Type} (m : M A) (k : A -> M B) (dbg : bool)
    (t : list event) (b : B) :
  bind m k dbg = Done t b ->
  exists t1 a t2, m dbg = Done t1 a /\ k a dbg = Done t2 b /\ t = t1 ++ t2.
Proof.
  unfold bind. destruct (m dbg) as [t1 a|]; [|discriminate].
  destruct (k a dbg) as [t2 b'|] eqn:E; [|discriminate].
  intros [= <- <-]. now exists t1, a, t2.
Qed.

Lemma ret_inv {A : Type} (a a' : A) (dbg : bool) (t : list event) :
  ret a dbg = Done t a' -> t = [] /\ a = a'.
Proof. unfold ret. now intros [= <- <-]. Qed.


Ltac invert_run H :=
  repeat match type of H with
  | bind _ _ _ = Done _ _ =>
      let t1 := fresh "t" in let x := fresh "x" in let t2 := fresh "t" in
      let H1 := fresh "Hrun" in let Et := fresh "Et" in
      apply bind_inv in H; destruct H as (t1 & x & t2 & H1 & H & Et)
  | ret _ _ = Done _ _ => apply ret_inv in H; destruct H as [? H]
  | (let (_, _) := ?x in _) _ = Done _ _ => destruct x
  | (match ?x with pair _ _ => _ end) _ = Done _ _ => destruct x
  end.

#[export] Instance HeapBufferAllocator_KeepsAllocatorTag
  : KeepsAllocatorTag HeapBufferAllocator.t.
Proof.
  intros h r m b o dbg t ok b' h' Hrun. cbn in Hrun.
  unfold HeapBufferAllocator.ReallocateInternal in Hrun.
  destruct (HeapBufferAllocator.Realloc h (Buffer.data b) (Buffer.size b) r)
    as [[data h1]|].
  - unfold UpdateBuffer in Hrun. invert_run Hrun.
    rewrite Buffer_Update_run in Hrun0. injection Hrun0 as _ <-.
    now injection Hrun as _ <- _.
  - invert_run Hrun. now injection Hrun as _ <- _.
Qed.

#[export] Instance MediatingBufferAllocator_KeepsAllocatorTag
    {D Q : Type} `{KeepsAllocatorTag D} `{Mediator Q}
  : KeepsAllocatorTag (MediatingBufferAllocator.t D Q).
Proof.
  intros s r m b o dbg t ok b' s' Hrun.
  change (MediatingBufferAllocator.ReallocateInternal s r m b o dbg
          = Done t (ok, b', s')) in Hrun.
  unfold MediatingBufferAllocator.ReallocateInternal in Hrun.
  apply bind_inv in Hrun. destruct Hrun as (t1 & [a med] & t2 & _ & Hrun & _).
  destruct (a =? 0).
  - apply ret_inv in Hrun. destruct Hrun as [_ E]. now injection E as _ <- _.
  - apply bind_inv in Hrun. destruct Hrun as (t3 & [[ok1 b1] d1] & t4 & Hd & Hrun & _).
    apply ret_inv in Hrun. destruct Hrun as [_ E]. injection E as _ <- _.
    exact (realloc_keeps_tag _ _ _ _ _ _ _ _ _ _ Hd).
Qed.

#[export] Instance MemoryLimit_KeepsAllocatorTag {D : Type} `{KeepsAllocatorTag D}
  : KeepsAllocatorTag (MemoryLimit.t D).
Proof.
  intros l r m b o dbg t ok b' l' Hrun.
  change (MemoryLimit.ReallocateInternal l r m b o dbg = Done t (ok, b', l')) in Hrun.
  unfold MemoryLimit.ReallocateInternal in Hrun.
  apply bind_inv in Hrun. destruct Hrun as (t1 & [[ok1 b1] a1] & t2 & Hd & Hrun & _).
  apply ret_inv in Hrun. destruct Hrun as [_ E]. injection E as _ <- _.
  exact (realloc_keeps_tag _ _ _ _ _ _ _ _ _ _ Hd).
Qed.

#[export] Instance ThreadSafeBufferAllocator_KeepsAllocatorTag
    {D : Type} `{KeepsAllocatorTag D}
  : KeepsAllocatorTag (ThreadSafeBufferAllocator.t D).
Proof.
  intros s r m b o dbg t ok b' s' Hrun.
  change (ThreadSafeBufferAllocator.ReallocateInternal s r m b o dbg
          = Done t (ok, b', s')) in Hrun.
  unfold ThreadSafeBufferAllocator.ReallocateInternal in Hrun.
  apply bind_inv in Hrun. destruct Hrun as (t1 & [[ok1 b1] d1] & t2 & Hd & Hrun & _).
  apply ret_inv in Hrun. destruct Hrun as [_ E]. injection E as _ <- _.
  exact (realloc_keeps_tag _ _ _ _ _ _ _ _ _ _ Hd).
Qed.

#[export] Instance GuaranteeMemory_KeepsAllocatorTag {D : Type} `{KeepsAllocatorTag D}
  : KeepsAllocatorTag (GuaranteeMemory.t D).
Proof.
  intros g r m b o dbg t ok b' g' Hrun.
  change (GuaranteeMemory.ReallocateInternal g r m b o dbg = Done t (ok, b', g')) in Hrun.
  unfold GuaranteeMemory.ReallocateInternal in Hrun.
  destruct (to_int64 (size_sub r (Buffer.size b)) <=? to_int64 (GuaranteeMemory.Available g)).
  - apply bind_inv in Hrun. destruct Hrun as (t1 & [[ok1 b1] l1] & t2 & Hd & Hrun & _).
    apply ret_inv in Hrun. destruct Hrun as [_ E]. injection E as _ <- _.
    exact (realloc_keeps_tag _ _ _ _ _ _ _ _ _ _ Hd).
  - apply ret_inv in Hrun. destruct Hrun as [_ E]. now injection E as _ <- _.
Qed.

#[export] Instance SoftQuotaBypassingBufferAllocator_KeepsAllocatorTag
    {D : Type} `{KeepsAllocatorTag D}
  : KeepsAllocatorTag (SoftQuotaBypassingBufferAllocator.t D).
Proof.
  intros s r m b o dbg t ok b' s' Hrun.
  change (SoftQuotaBypassingBufferAllocator.ReallocateInternal s r m b o dbg
          = Done t (ok, b', s')) in Hrun.
  unfold SoftQuotaBypassingBufferAllocator.ReallocateInternal in Hrun.
  apply bind_inv in Hrun. destruct Hrun as (t1 & [[ok1 b1] l1] & t2 & Hd & Hrun & _).
  pose proof (realloc_keeps_tag _ _ _ _ _ _ _ _ _ _ Hd) as Hfirst.
  destruct ok1.
  - apply ret_inv in Hrun. destruct Hrun as [_ E]. now injection E as _ <- _.
  - apply bind_inv in Hrun. destruct Hrun as (t3 & [[ok2 b2] l2] & t4 & Hd2 & Hrun & _).
    apply ret_inv in Hrun. destruct Hrun as [_ E]. injection E as _ <- _.
    rewrite (realloc_keeps_tag _ _ _ _ _ _ _ _ _ _ Hd2). exact Hfirst.
Qed.

(** Through the public [BestEffortReallocate] of any such allocator the
    buffer keeps its tag, whether the reallocation succeeds or not, and
    a non-null result is the buffer that was passed in. *)
Lemma BestEffortReallocate_keeps_allocator_tag
    {A : Type} `{KeepsAllocatorTag A} `{LogAllocationImpl}
    (dbg : bool) (this : Z) (a a' : A) (requested minimal : size_t)
    (buffer : Buffer.t) (t : list event) (result after : option Buffer.t) :
  BestEffortReallocate this a requested minimal (Some buffer) dbg
    = Done t (result, after, a') ->
  exists b', after = Some b' /\
             Buffer.allocator_ b' = Buffer.allocator_ buffer /\
             (result = Some b' \/ result = None).
Proof.
  unfold BestEffortReallocate. intros Hrun.
  apply bind_inv in Hrun. destruct Hrun as (t0 & [] & t1 & _ & Hrun & _).
  apply bind_inv in Hrun. destruct Hrun as (t2 & [[ok b'] a1] & t3 & Hr & Hrun & _).
  apply bind_inv in Hrun. destruct Hrun as (t4 & [] & t5 & _ & Hrun & _).
  apply ret_inv in Hrun. destruct Hrun as [_ E]. injection E as <- <- _.
  exists b'. split; [reflexivity|]. split.
  - exact (realloc_keeps_tag _ _ _ _ _ _ _ _ _ _ Hr).
  - destruct ok; auto.
Qed.

(** ** SoftQuotaBypassingBufferAllocator *)

(** The inner allocator of the decorator is its [MemoryLimit] member,
    whose [Available] is the smaller of the delegate's and of what the
    "infinite" quota has left. *)
Lemma MemoryLimit_Available_value {D : Type} `{BufferAllocator D} (l : MemoryLimit.t D) :
  MemoryLimit.Available l =
    Z.min (Available (MediatingBufferAllocator.delegate_ (MemoryLimit.allocator_ l)))
          (Quota.Available (MemoryLimit.quota_ l)).
Proof. reflexivity. Qed.

(** C7.  With bypass amount [B] over the inner allocator [allocator_]:
    [Available()] is [max(B - usage, inner available)] when [usage < B]
    and the inner available otherwise; [AllocateInternal] and
    [ReallocateInternal] first call the inner allocator with
    [minimal' = min(requested, max(minimal, Available()))], return that
    attempt's result when it succeeds, and otherwise make a second call
    with the caller's [minimal], on the state the first call left, and
    return its result. *)
Theorem SoftQuotaBypassing_available_and_retry
    {D : Type} `{BufferAllocator D}
    (dbg : bool) (s : SoftQuotaBypassingBufferAllocator.t D)
    (requested minimal : size_t) (buffer : Buffer.t) (originator : Z) :
  let inner := SoftQuotaBypassingBufferAllocator.allocator_ s in
  let B := SoftQuotaBypassingBufferAllocator.bypassed_amount_ s in
  let usage := MemoryLimit.GetUsage inner in
  let minimal' :=
    Z.min requested (Z.max minimal (SoftQuotaBypassingBufferAllocator.Available s)) in
  is_size_t B -> is_size_t usage ->
  SoftQuotaBypassingBufferAllocator.Available s
    = (if usage <? B then Z.max (B - usage) (MemoryLimit.Available inner)
       else MemoryLimit.Available inner)
  /\ SoftQuotaBypassingBufferAllocator.AllocateInternal s requested minimal originator dbg
     = match MemoryLimit.AllocateInternal inner requested minimal' originator dbg with
       | Fatal => Fatal
       | Done t1 (Some b, l1) =>
           Done t1 (Some b, SoftQuotaBypassingBufferAllocator.mk l1 B)
       | Done t1 (None, l1) =>
           match MemoryLimit.AllocateInternal l1 requested minimal originator dbg with
           | Fatal => Fatal
           | Done t2 (result, l2) =>
               Done (t1 ++ t2) (result, SoftQuotaBypassingBufferAllocator.mk l2 B)
           end
       end
  /\ SoftQuotaBypassingBufferAllocator.ReallocateInternal s requested minimal buffer
       originator dbg
     = match MemoryLimit.ReallocateInternal inner requested minimal' buffer originator dbg with
       | Fatal => Fatal
       | Done t1 (true, b1, l1) =>
           Done t1 (true, b1, SoftQuotaBypassingBufferAllocator.mk l1 B)
       | Done t1 (false, b1, l1) =>
           match MemoryLimit.ReallocateInternal l1 requested minimal b1 originator dbg with
           | Fatal => Fatal
           | Done t2 (ok, b2, l2) =>
               Done (t1 ++ t2) (ok, b2, SoftQuotaBypassingBufferAllocator.mk l2 B)
           end
       end.
Proof.
  intros inner B usage minimal' HB Hu. split; [|split].
  - unfold SoftQuotaBypassingBufferAllocator.Available. fold inner B usage.
    destruct (Z.ltb_spec usage B) as [Hlt|Hge]; [|reflexivity].
    rewrite (size_sub_exact B usage HB Hu); [reflexivity|lia].
  - unfold SoftQuotaBypassingBufferAllocator.AllocateInternal,
      SoftQuotaBypassingBufferAllocator.AdjustMinimal, DelegateAllocate, bind.
    fold inner B minimal'.
    change (AllocateInternal inner requested minimal' originator dbg)
      with (MemoryLimit.AllocateInternal inner requested minimal' originator dbg).
    destruct (MemoryLimit.AllocateInternal inner requested minimal' originator dbg)
      as [t1 [[b|] l1]|]; [unfold ret; cbv beta iota; now rewrite app_nil_r| |reflexivity].
    change (AllocateInternal l1 requested minimal originator dbg)
      with (MemoryLimit.AllocateInternal l1 requested minimal originator dbg).
    destruct (MemoryLimit.AllocateInternal l1 requested minimal originator dbg)
      as [t2 [result l2]|]; [unfold ret; cbv beta iota; now rewrite app_nil_r|reflexivity].
  - unfold SoftQuotaBypassingBufferAllocator.ReallocateInternal,
      SoftQuotaBypassingBufferAllocator.AdjustMinimal, DelegateReallocate, bind.
    fold inner B minimal'.
    change (ReallocateInternal inner requested minimal' buffer originator dbg)
      with (MemoryLimit.ReallocateInternal inner requested minimal' buffer originator dbg).
    destruct (MemoryLimit.ReallocateInternal inner requested minimal' buffer originator dbg)
      as [t1 [[[|] b1] l1]|]; [unfold ret; cbv beta iota; now rewrite app_nil_r| |reflexivity].
    change (ReallocateInternal l1 requested minimal b1 originator dbg)
      with (MemoryLimit.ReallocateInternal l1 requested minimal b1 originator dbg).
    destruct (MemoryLimit.ReallocateInternal l1 requested minimal b1 originator dbg)
      as [t2 [[ok b2] l2]|]; [unfold ret; cbv beta iota; now rewrite app_nil_r|reflexivity].
Qed.


Lemma SoftQuotaBypassing_available_and_retry_witness :
  is_size_t 50 /\ is_size_t 0 /\
  SoftQuotaBypassingBufferAllocator.Available
    (SoftQuotaBypassingBufferAllocator.ctor example_heap 50)
  = (if 0 <? 50
     then Z.max (50 - 0) (MemoryLimit.Available (MemoryLimit.ctor2 SIZE_MAX example_heap))
     else MemoryLimit.Available (MemoryLimit.ctor2 SIZE_MAX example_heap)).
Proof.
  assert (H50 : is_size_t 50) by (split; vm_compute; discriminate).
  assert (H0 : is_size_t 0) by (split; vm_compute; discriminate).
  split; [exact H50|]. split; [exact H0|].
  exact (proj1 (SoftQuotaBypassing_available_and_retry true
                  (SoftQuotaBypassingBufferAllocator.ctor example_heap 50)
                  80 10 (Buffer.mk 4096 10 7) 7 H50 H0)).
Defined.

(** ** MemoryLimit over the mediating allocator *)

(** What a call of [MemoryLimit::AllocateInternal] that returns has
    done: the quota was asked first and keeps its answer; a zero answer
    ends the call with no buffer and the delegate untouched, any other
    answer [a] is forwarded as [allocate(a, a)]. *)
Lemma MemoryLimit_AllocateInternal_inv {D : Type} `{BufferAllocator D}
    (dbg : bool) (l l' : MemoryLimit.t D) (requested minimal : size_t)
    (originator : Z) (t : list event) (result : option Buffer.t) :
  MemoryLimit.AllocateInternal l requested minimal originator dbg = Done t (result, l') ->
  exists t1 a,
    Quota.Allocate (MemoryLimit.quota_ l) requested minimal dbg
      = Done t1 (a, MemoryLimit.quota_ l') /\
    (a = 0 /\ result = None /\ t = t1 /\
     MediatingBufferAllocator.delegate_ (MemoryLimit.allocator_ l')
       = MediatingBufferAllocator.delegate_ (MemoryLimit.allocator_ l)
     \/
     a <> 0 /\
     exists t2,
       AllocateInternal (MediatingBufferAllocator.delegate_ (MemoryLimit.allocator_ l))
         a a originator dbg
       = Done t2 (result, MediatingBufferAllocator.delegate_ (MemoryLimit.allocator_ l')) /\
       t = t1 ++ t2).
Proof.
  unfold MemoryLimit.AllocateInternal, DelegateAllocate. intros Hrun.
  apply bind_inv in Hrun. destruct Hrun as (t0 & [res0 s0] & t0' & Hm & Hrun & Et).
  apply ret_inv in Hrun. destruct Hrun as [-> E]. injection E as -> <-.
  rewrite app_nil_r in Et. subst t0.
  change (MediatingBufferAllocator.AllocateInternal (MemoryLimit.allocator_ l)
            requested minimal originator dbg = Done t (result, s0)) in Hm.
  unfold MediatingBufferAllocator.AllocateInternal in Hm.
  apply bind_inv in Hm. destruct Hm as (t1 & [a med] & t2 & Hq & Hm & Et).
  exists t1, a. cbn [Mediator_Allocate Quota_Mediator] in Hq.
  destruct (Z.eqb_spec a 0) as [Ha|Ha].
  - apply ret_inv in Hm. destruct Hm as [-> E]. injection E as <- <-.
    split; [exact Hq|]. left. rewrite app_nil_r in Et. now repeat split.
  - unfold DelegateAllocate in Hm.
    apply bind_inv in Hm. destruct Hm as (t3 & [res d] & t4 & Hd & Hm & Et2).
    apply ret_inv in Hm. destruct Hm as [-> E]. injection E as <- <-.
    rewrite app_nil_r in Et2. subst t2.
    split; [exact Hq|]. right. split; [exact Ha|]. exists t3. now split.
Qed.

(** An enforced quota asked for exactly [r] answers [r], booking it
    within the limit, or [0], booking nothing. *)
Lemma Quota_Allocate_exact_enforced (dbg : bool) (q q' : Quota.t) (r a : size_t)
    (t : list event) :
  Quota.wf q -> Quota.enforced_ q = true -> 0 <= r ->
  Quota.Allocate q r r dbg = Done t (a, q') ->
  (a = 0 /\ q' = q)
  \/ (a = r /\ q' = Quota.set_usage q (Quota.usage_ q + r) /\
      Quota.usage_ q + r <= Quota.quota_ q).
Proof.
  intros Hwf Henf Hr Hrun.
  destruct (Z_le_gt_dec (Quota.usage_ q) (Quota.quota_ q)) as [Hle|Hgt].
  - destruct (Z_le_gt_dec r (Quota.quota_ q - Quota.usage_ q)) as [Hroom|Hnot].
    + rewrite Quota_Allocate_in_quota in Hrun by (try assumption; lia).
      rewrite Z.min_l in Hrun by exact Hroom.
      injection Hrun as _ <- <-. right. repeat split. lia.
    + rewrite Quota_Allocate_denied in Hrun by (try assumption; lia).
      injection Hrun as _ <- <-. now left.
  - rewrite Quota_Allocate_denied in Hrun by (try assumption; lia).
    injection Hrun as _ <- <-. now left.
Qed.

(** ** GuaranteeMemory *)


#[export] Instance HeapBufferAllocator_GrantsWithinBounds
  : GrantsWithinBounds HeapBufferAllocator.t.
Proof.
  intros h h' r m o dbg t b Hm Hrun.
  change (HeapBufferAllocator.AllocateInternal h r m o dbg = Done t (Some b, h')) in Hrun.
  unfold HeapBufferAllocator.AllocateInternal in Hrun.
  destruct (HeapBufferAllocator.Malloc h r) as [[data h1]|].
  - apply bind_inv in Hrun. destruct Hrun as (t1 & b1 & t2 & Hc & Hrun & _).
    apply ret_inv in Hrun. destruct Hrun as [_ E]. injection E as <- _.
    unfold CreateBuffer, Buffer.ctor in Hc.
    apply bind_inv in Hc. destruct Hc as (t3 & p & t4 & _ & Hc & _).
    apply bind_inv in Hc. destruct Hc as (t5 & [] & t6 & _ & Hc & _).
    apply ret_inv in Hc. destruct Hc as [_ <-]. cbn [Buffer.size Buffer.size_]. lia.
  - apply ret_inv in Hrun. destruct Hrun as [_ E]. discriminate E.
Qed.


Lemma GuaranteeMemory_ctor_wf {D : Type} `{BufferAllocator D} (G : size_t) (d : D) :
  is_size_t G -> GuaranteeMemory_wf (GuaranteeMemory.ctor G d).
Proof.
  intros HG. unfold GuaranteeMemory_wf, GuaranteeMemory.ctor, MemoryLimit.ctor3,
    MemoryLimit.quota_, Quota.ctor, Quota.wf.
  cbn [GuaranteeMemory.limit_ GuaranteeMemory.memory_guarantee_ MemoryLimit.allocator_
       MediatingBufferAllocator.mediator_ Quota.usage_ Quota.quota_ Quota.enforced_].
  unfold is_size_t in *. rewrite SIZE_MAX_value in *. repeat split; lia.
Qed.

Lemma GuaranteeMemory_Available_value {D : Type} `{BufferAllocator D}
    (g : GuaranteeMemory.t D) :
  GuaranteeMemory_wf g ->
  GuaranteeMemory.Available g
    = GuaranteeMemory.memory_guarantee_ g
      - MemoryLimit.GetUsage (GuaranteeMemory.limit_ g).
Proof.
  intros ([Hu Hq] & _ & Eq & Hle). unfold GuaranteeMemory.Available.
  unfold MemoryLimit.GetUsage, Quota.GetUsage. rewrite <- Eq.
  apply size_sub_exact; assumption.
Qed.

(** Refused by the guarantee itself: nothing is logged, nothing changes,
    the delegate is not called. *)
Lemma GuaranteeMemory_AllocateInternal_over {D : Type} `{BufferAllocator D}
    (dbg : bool) (g : GuaranteeMemory.t D) (requested minimal : size_t) (originator : Z) :
  requested > GuaranteeMemory.Available g ->
  GuaranteeMemory.AllocateInternal g requested minimal originator dbg = Done [] (None, g).
Proof.
  intros Hover. unfold GuaranteeMemory.AllocateInternal.
  destruct (Z.ltb_spec (GuaranteeMemory.Available g) requested); [reflexivity|lia].
Qed.

(** Cleared by the guarantee: the call is [allocate(requested, requested)]
    on the limit, whatever [minimal] was. *)
Lemma GuaranteeMemory_AllocateInternal_forward {D : Type} `{BufferAllocator D}
    (dbg : bool) (g : GuaranteeMemory.t D) (requested minimal : size_t) (originator : Z) :
  requested <= GuaranteeMemory.Available g ->
  GuaranteeMemory.AllocateInternal g requested minimal originator dbg
  = match MemoryLimit.AllocateInternal (GuaranteeMemory.limit_ g)
            requested requested originator dbg with
    | Fatal => Fatal
    | Done t (result, l) =>
        Done t (result, GuaranteeMemory.mk l (GuaranteeMemory.memory_guarantee_ g))
    end.
Proof.
  intros Hfits. unfold GuaranteeMemory.AllocateInternal.
  destruct (Z.ltb_spec (GuaranteeMemory.Available g) requested); [lia|].
  unfold bind, DelegateAllocate.
  change (AllocateInternal (GuaranteeMemory.limit_ g) requested requested originator dbg)
    with (MemoryLimit.AllocateInternal (GuaranteeMemory.limit_ g)
            requested requested originator dbg).
  destruct (MemoryLimit.AllocateInternal (GuaranteeMemory.limit_ g)
              requested requested originator dbg) as [t [result l]|]; [|reflexivity].
  unfold ret. cbv beta iota. now rewrite app_nil_r.
Qed.

(** A successful allocation is of exactly [requested] bytes, booked in
    full, and leaves the state well formed. *)
Lemma GuaranteeMemory_AllocateInternal_success {D : Type} `{GrantsWithinBounds D}
    (dbg : bool) (g g' : GuaranteeMemory.t D) (requested minimal : size_t)
    (originator : Z) (t : list event) (b : Buffer.t) :
  GuaranteeMemory_wf g -> 0 <= requested ->
  GuaranteeMemory.AllocateInternal g requested minimal originator dbg
    = Done t (Some b, g') ->
  Buffer.size b = requested /\
  GuaranteeMemory_wf g' /\
  GuaranteeMemory.memory_guarantee_ g' = GuaranteeMemory.memory_guarantee_ g /\
  MemoryLimit.GetUsage (GuaranteeMemory.limit_ g')
    = MemoryLimit.GetUsage (GuaranteeMemory.limit_ g) + requested.
Proof.
  intros Hwf Hr Hrun.
  destruct (Z_le_gt_dec requested (GuaranteeMemory.Available g)) as [Hfits|Hover].
  2:{ rewrite GuaranteeMemory_AllocateInternal_over in Hrun by exact Hover.
      discriminate Hrun. }
  rewrite GuaranteeMemory_AllocateInternal_forward in Hrun by exact Hfits.
  destruct (MemoryLimit.AllocateInternal (GuaranteeMemory.limit_ g)
              requested requested originator dbg) as [t' [result l]|] eqn:El;
    [|discriminate Hrun].
  injection Hrun as -> -> <-.
  destruct (MemoryLimit_AllocateInternal_inv _ _ _ _ _ _ _ _ El)
    as (t1 & a & Hq & [(_ & Hnone & _)|(Ha & t2 & Hd & _)]); [discriminate Hnone|].
  destruct Hwf as (Hqwf & Henf & Eq & Hle).
  destruct (Quota_Allocate_exact_enforced _ _ _ _ _ _ Hqwf Henf Hr Hq)
    as [[Ha0 _]|(-> & Eq' & Hroom)]; [contradiction|].
  pose proof (grant_within_bounds _ _ _ _ _ _ _ _ (Z.le_refl requested) Hd) as Hsize.
  split; [lia|].
  unfold GuaranteeMemory_wf, MemoryLimit.GetUsage, Quota.GetUsage.
  cbn [GuaranteeMemory.limit_ GuaranteeMemory.memory_guarantee_].
  rewrite Eq'. cbn [Quota.set_usage Quota.usage_ Quota.quota_ Quota.enforced_].
  destruct Hqwf as [Hu Hqq]. unfold Quota.wf.
  cbn [Quota.set_usage Quota.usage_ Quota.quota_ Quota.enforced_].
  unfold is_size_t in *.
  repeat split; try assumption; try lia.
Qed.

Lemma BestEffortAllocate_inv {A : Type} `{BufferAllocator A} `{LogAllocationImpl}
    (dbg : bool) (this : Z) (a a' : A) (requested minimal : size_t)
    (t : list event) (result : option Buffer.t) :
  BestEffortAllocate this a requested minimal dbg = Done t (result, a') ->
  exists t1, AllocateInternal a requested minimal this dbg = Done t1 (result, a').
Proof.
  unfold BestEffortAllocate. intros Hrun.
  apply bind_inv in Hrun. destruct Hrun as (t0 & [] & t0' & _ & Hrun & _).
  apply bind_inv in Hrun. destruct Hrun as (t1 & [res a1] & t2 & Ha & Hrun & _).
  apply bind_inv in Hrun. destruct Hrun as (t3 & [] & t4 & _ & Hrun & _).
  apply ret_inv in Hrun. destruct Hrun as [_ E]. injection E as <- <-.
  now exists t1.
Qed.

(** C6.  [GuaranteeMemory] built with quota [G].  Its [Available()] is
    [G] minus the usage.  An allocation with [requested > Available()]
    is denied by the decorator itself, with the delegate not called.
    Otherwise the call forwarded is [allocate(requested, requested)],
    whatever [minimal] was, so a buffer that comes back has exactly
    [requested] bytes.  After [Allocate(G)] has succeeded on a fresh
    [GuaranteeMemory(G)], [Available()] is [0] and [Allocate(1)] is
    denied. *)
Theorem GuaranteeMemory_exact_or_nothing
    {D : Type} `{GrantsWithinBounds D} `{LogAllocationImpl}
    (dbg : bool) (this : Z) (g : GuaranteeMemory.t D)
    (requested minimal : size_t) (G : size_t) (d : D) :
  GuaranteeMemory_wf g -> 0 <= requested -> is_size_t G ->
  GuaranteeMemory.Available g
    = GuaranteeMemory.memory_guarantee_ g
      - MemoryLimit.GetUsage (GuaranteeMemory.limit_ g)
  /\ (requested > GuaranteeMemory.Available g ->
      GuaranteeMemory.AllocateInternal g requested minimal this dbg = Done [] (None, g) /\
      forall t result g',
        BestEffortAllocate this g requested minimal dbg = Done t (result, g') ->
        result = None /\ g' = g)
  /\ (requested <= GuaranteeMemory.Available g ->
      GuaranteeMemory.AllocateInternal g requested minimal this dbg
      = match MemoryLimit.AllocateInternal (GuaranteeMemory.limit_ g)
                requested requested this dbg with
        | Fatal => Fatal
        | Done t (result, l) =>
            Done t (result, GuaranteeMemory.mk l (GuaranteeMemory.memory_guarantee_ g))
        end)
  /\ (forall t b g',
        BestEffortAllocate this g requested minimal dbg = Done t (Some b, g') ->
        Buffer.size b = requested /\
        GuaranteeMemory_wf g' /\
        GuaranteeMemory.Available g' = GuaranteeMemory.Available g - requested)
  /\ (forall t b g',
        Allocate this (GuaranteeMemory.ctor G d) G dbg = Done t (Some b, g') ->
        Buffer.size b = G /\
        GuaranteeMemory.Available g' = 0 /\
        GuaranteeMemory.AllocateInternal g' 1 1 this dbg = Done [] (None, g') /\
        forall t' result g'',
          Allocate this g' 1 dbg = Done t' (result, g'') ->
          result = None /\ g'' = g').
Proof.
  intros Hwf Hr HG.
  assert (Hdenied : forall (g0 g1 : GuaranteeMemory.t D) r m t result,
            r > GuaranteeMemory.Available g0 ->
            BestEffortAllocate this g0 r m dbg = Done t (result, g1) ->
            result = None /\ g1 = g0).
  { intros g0 g1 r m t result Hover Hrun.
    apply BestEffortAllocate_inv in Hrun. destruct Hrun as [t1 Hrun].
    change (GuaranteeMemory.AllocateInternal g0 r m this dbg = Done t1 (result, g1)) in Hrun.
    rewrite GuaranteeMemory_AllocateInternal_over in Hrun by exact Hover.
    injection Hrun as _ <- <-. now split. }
  assert (Hgranted : forall (g0 g1 : GuaranteeMemory.t D) r m t b,
            GuaranteeMemory_wf g0 -> 0 <= r ->
            BestEffortAllocate this g0 r m dbg = Done t (Some b, g1) ->
            Buffer.size b = r /\ GuaranteeMemory_wf g1 /\
            GuaranteeMemory.Available g1 = GuaranteeMemory.Available g0 - r).
  { intros g0 g1 r m t b Hwf0 Hr0 Hrun.
    apply BestEffortAllocate_inv in Hrun. destruct Hrun as [t1 Hrun].
    change (GuaranteeMemory.AllocateInternal g0 r m this dbg = Done t1 (Some b, g1)) in Hrun.
    destruct (GuaranteeMemory_AllocateInternal_success _ _ _ _ _ _ _ _ Hwf0 Hr0 Hrun)
      as (Hsize & Hwf1 & EG & Eu).
    split; [exact Hsize|]. split; [exact Hwf1|].
    rewrite !GuaranteeMemory_Available_value by assumption. lia. }
  split; [apply GuaranteeMemory_Available_value; exact Hwf|].
  split; [|split; [|split]].
  - intros Hover. split.
    + apply GuaranteeMemory_AllocateInternal_over; exact Hover.
    + intros t result g'. apply Hdenied; exact Hover.
  - apply GuaranteeMemory_AllocateInternal_forward.
  - intros t b g'. apply Hgranted; assumption.
  - intros t b g' Hrun.
    pose proof (GuaranteeMemory_ctor_wf G d HG) as Hwf0.
    destruct (Hgranted _ _ _ _ _ _ Hwf0 (proj1 HG) Hrun) as (Hsize & Hwf1 & Ea).
    assert (E0 : GuaranteeMemory.Available g' = 0).
    { rewrite Ea, GuaranteeMemory_Available_value by exact Hwf0.
      unfold GuaranteeMemory.ctor, MemoryLimit.ctor3, MemoryLimit.GetUsage,
        MemoryLimit.quota_, Quota.GetUsage, Quota.ctor.
      cbn [GuaranteeMemory.limit_ GuaranteeMemory.memory_guarantee_
           MemoryLimit.allocator_ MediatingBufferAllocator.mediator_ Quota.usage_].
      lia. }
    split; [exact Hsize|]. split; [exact E0|]. split.
    + apply GuaranteeMemory_AllocateInternal_over. lia.
    + intros t' result g''. apply Hdenied. lia.
Qed.

Lemma GuaranteeMemory_exact_or_nothing_witness :
  exists t b g',
    Allocate 7 (GuaranteeMemory.ctor 100 example_heap) 100 true = Done t (Some b, g') /\
    Buffer.size b = 100 /\
    GuaranteeMemory.Available g' = 0 /\
    GuaranteeMemory.AllocateInternal g' 1 1 7 true = Done [] (None, g').
Proof.
  assert (H100 : is_size_t 100) by (split; vm_compute; discriminate).
  destruct (GuaranteeMemory_exact_or_nothing true 7
              (GuaranteeMemory.ctor 100 example_heap) 1 1 100 example_heap
              (GuaranteeMemory_ctor_wf 100 example_heap H100) Z.le_0_1 H100)
    as (_ & _ & _ & _ & Hfull).
  eexists _, _, _. split; [vm_compute; reflexivity|].
  destruct (Hfull _ _ _ eq_refl) as (Hs & Ha & Hd & _).
  split; [exact Hs|]. split; [exact Ha|exact Hd].
Defined.

(** ** Requests with [requested = 0] or [minimal = 0] *)








(** ** A run of allocations, one after the other

    The mutex of a thread-safe quota makes each [Allocate] one step; the
    steps of [n] callers asking for one byte each are the same call [n]
    times over. *)

Lemma Allocate_times_within_limit (dbg : bool) (n : nat) :
  forall (u L : size_t),
    0 <= u -> u + Z.of_nat n <= L -> L <= SIZE_MAX ->
    Allocate_times n (Quota.mk u true L) dbg
      = Done [] (repeat 1 n, Quota.mk (u + Z.of_nat n) true L).
Proof.
  induction n as [|n IH]; intros u L Hu Hfit HL.
  - cbn [Allocate_times repeat Z.of_nat]. now rewrite Z.add_0_r.
  - cbn [Allocate_times repeat]. rewrite Nat2Z.inj_succ in *.
    assert (Hwf : Quota.wf (Quota.mk u true L)).
    { split; unfold is_size_t; cbn [Quota.usage_ Quota.quota_]; lia. }
    rewrite (bind_Done _ _ _ _ _
               (Quota_Allocate_in_quota dbg (Quota.mk u true L) 1 1 Hwf
                  ltac:(lia) ltac:(cbn [Quota.usage_ Quota.quota_]; lia)
                  ltac:(cbn [Quota.usage_ Quota.quota_]; lia))).
    cbn [Quota.usage_ Quota.quota_ Quota.set_usage Quota.enforced_].
    rewrite Z.min_l by lia.
    rewrite (bind_Done _ _ _ _ _ (IH (u + 1) L ltac:(lia) ltac:(lia) HL)).
    unfold ret. cbn [app]. do 3 f_equal. lia.
Qed.

(** With limit [N] and [N] callers every call is granted its byte, and
    the usage ends at [N]; one more call is denied. *)
Lemma Allocate_times_fills_quota (dbg : bool) (n : nat) :
  Z.of_nat n <= SIZE_MAX ->
  Allocate_times n (Quota.ctor (Z.of_nat n) true) dbg
    = Done [] (repeat 1 n, Quota.mk (Z.of_nat n) true (Z.of_nat n))
  /\ exists t,
       Quota.Allocate (Quota.mk (Z.of_nat n) true (Z.of_nat n)) 1 1 dbg
         = Done t (0, Quota.mk (Z.of_nat n) true (Z.of_nat n)).
Proof.
  intros Hn. split.
  - unfold Quota.ctor. rewrite Allocate_times_within_limit by lia.
    now rewrite Z.add_0_l.
  - eexists. apply Quota_Allocate_denied; cbn [Quota.usage_ Quota.quota_ Quota.enforced_];
      [|reflexivity|lia|right; lia].
    split; unfold is_size_t; cbn [Quota.usage_ Quota.quota_]; lia.
Qed.

(** * Further properties of memory.h *)

(** ** The quota as a mediator *)

(** One call of [Allocate] under its precondition, in full: the call
    returns; the grant is [min(requested, quota - usage)] in quota and
    otherwise [minimal] or [0]; the usage grows by the grant, exactly. *)
Lemma Quota_Allocate_step (dbg : bool) (q : Quota.t) (requested minimal : size_t) :
  Quota.wf q -> 0 <= minimal <= requested ->
  exists t a,
    Quota.Allocate q requested minimal dbg
      = Done t (a, Quota.set_usage q (Quota.usage_ q + a)) /\
    (Quota.usage_ q <= Quota.quota_ q /\ minimal <= Quota.quota_ q - Quota.usage_ q /\
     a = Z.min requested (Quota.quota_ q - Quota.usage_ q) /\ t = []
     \/
     (Quota.usage_ q > Quota.quota_ q \/ minimal > Quota.quota_ q - Quota.usage_ q) /\
     a = (if negb (Quota.enforced_ q) && (minimal <=? SIZE_MAX - Quota.usage_ q)
          then minimal else 0) /\
     t = [LogLine WARNING
            (OutOfQuota requested minimal (Quota.quota_ q) (Quota.usage_ q)
               (Quota.enforced_ q) (negb (a =? 0)))]).
Proof.
  intros Hwf Hm.
  destruct (Z_le_gt_dec (Quota.usage_ q) (Quota.quota_ q)) as [Hle|Hgt];
    [destruct (Z_le_gt_dec minimal (Quota.quota_ q - Quota.usage_ q)) as [Hroom|Hnot]|].
  - eexists _, _. split; [apply Quota_Allocate_in_quota; assumption|].
    left. repeat split; assumption.
  - eexists _, _. split;
      [apply Quota_Allocate_out_of_quota; try assumption; right; exact Hnot|].
    right. split; [right; exact Hnot|]. split; reflexivity.
  - eexists _, _. split;
      [apply Quota_Allocate_out_of_quota; try assumption; left; exact Hgt|].
    right. split; [left; exact Hgt|]. split; reflexivity.
Qed.

(** X1.  The contract of [Mediator::Allocate], kept by the quota in both
    modes.  Under [minimal <= requested] the call returns; its answer is
    zero or lies in [[minimal, requested]]; the usage grows by exactly
    the answer and never wraps around [SIZE_MAX]; the quota value and
    the enforced flag are untouched; and a line is logged exactly when
    the request was out of quota. *)
Theorem Quota_Allocate_contract (dbg : bool) (q : Quota.t) (requested minimal : size_t) :
  Quota.wf q -> 0 <= minimal <= requested ->
  exists t a q',
    Quota.Allocate q requested minimal dbg = Done t (a, q') /\
    (a = 0 \/ minimal <= a <= requested) /\
    Quota.usage_ q' = Quota.usage_ q + a /\
    Quota.usage_ q' <= SIZE_MAX /\
    Quota.quota_ q' = Quota.quota_ q /\
    Quota.enforced_ q' = Quota.enforced_ q /\
    (t = [] <->
     Quota.usage_ q <= Quota.quota_ q /\ minimal <= Quota.quota_ q - Quota.usage_ q).
Proof.
  intros Hwf Hm. pose proof Hwf as [Hu Hq]. unfold is_size_t in Hu, Hq.
  destruct (Quota_Allocate_step dbg q requested minimal Hwf Hm)
    as (t & a & E & [(Hle & Hroom & Ea & Et)|(Hooq & Ea & Et)]).
  - subst a t. eexists _, _, _. split; [exact E|].
    cbn [Quota.set_usage Quota.usage_ Quota.quota_ Quota.enforced_].
    split; [right; lia|]. split; [reflexivity|]. split; [lia|].
    split; [reflexivity|]. split; [reflexivity|]. split; [intros _; now split|reflexivity].
  - subst t. eexists _, _, _. split; [exact E|].
    cbn [Quota.set_usage Quota.usage_ Quota.quota_ Quota.enforced_].
    assert (Ha : (a = 0 \/ a = minimal) /\ Quota.usage_ q + a <= SIZE_MAX).
    { rewrite Ea.
      destruct (negb (Quota.enforced_ q)); [rewrite andb_true_l|rewrite andb_false_l].
      - destruct (Z.leb_spec minimal (SIZE_MAX - Quota.usage_ q)); split; auto; lia.
      - split; auto; lia. }
    split; [destruct Ha as [[E0 | Em] _]; [left; exact E0|right; lia]|].
    split; [reflexivity|]. split; [apply Ha|].
    split; [reflexivity|]. split; [reflexivity|].
    split; [discriminate|]. intros [Hle Hroom]. lia.
Qed.

Lemma Quota_Allocate_contract_witness :
  exists t a q',
    Quota.Allocate (Quota.mk (SIZE_MAX - 3) false 10) 9 5 true = Done t (a, q') /\
    (a = 0 \/ 5 <= a <= 9) /\
    Quota.usage_ q' = SIZE_MAX - 3 + a /\
    Quota.usage_ q' <= SIZE_MAX /\
    Quota.quota_ q' = 10 /\
    Quota.enforced_ q' = false /\
    (t = [] <-> SIZE_MAX - 3 <= 10 /\ 5 <= 10 - (SIZE_MAX - 3)).
Proof.
  apply (Quota_Allocate_contract true (Quota.mk (SIZE_MAX - 3) false 10) 9 5).
  - split; split; vm_compute; discriminate.
  - lia.
Defined.

(** X2.  An enforced quota grants by what [Available()] reports: the
    answer to [Allocate(requested, minimal)] is
    [min(requested, Available())] when [minimal <= Available()] and [0]
    otherwise, so it never exceeds [Available()], and [Available()]
    afterwards is smaller by exactly the answer. *)
Theorem Quota_Allocate_enforced_by_Available
    (dbg : bool) (q : Quota.t) (requested minimal : size_t) :
  Quota.wf q -> Quota.enforced_ q = true -> 0 <= minimal <= requested ->
  exists t a q',
    Quota.Allocate q requested minimal dbg = Done t (a, q') /\
    a = (if minimal <=? Quota.Available q
         then Z.min requested (Quota.Available q) else 0) /\
    0 <= a <= Quota.Available q /\
    Quota.Available q' = Quota.Available q - a.
Proof.
  intros Hwf Henf Hm. pose proof Hwf as [Hu Hq]. unfold is_size_t in Hu, Hq.
  destruct (Quota_Allocate_step dbg q requested minimal Hwf Hm)
    as (t & a & E & Hcase).
  exists t, a, (Quota.set_usage q (Quota.usage_ q + a)). split; [exact E|].
  assert (Hav' : forall u, 0 <= u <= SIZE_MAX ->
            Quota.Available (Quota.set_usage q u)
            = if Quota.quota_ q <=? u then 0 else Quota.quota_ q - u).
  { intros u Hur. apply Quota_Available_value. split; exact Hur || exact (conj (proj1 Hq) (proj2 Hq)). }
  rewrite (Quota_Available_value q Hwf).
  destruct Hcase as [(Hle & Hroom & Ea & _)|(Hooq & Ea & _)].
  - subst a. rewrite Hav' by lia.
    destruct (Z.leb_spec (Quota.quota_ q) (Quota.usage_ q)) as [Hfull|Hfree].
    + assert (Quota.quota_ q - Quota.usage_ q = 0) as -> by lia.
      assert (minimal = 0) as -> by lia.
      rewrite Z.min_r by lia. cbn [Z.leb Z.compare]. rewrite Z.add_0_r.
      destruct (Z.leb_spec (Quota.quota_ q) (Quota.usage_ q)); lia.
    + destruct (Z.leb_spec minimal (Quota.quota_ q - Quota.usage_ q)); [|lia].
      destruct (Z.leb_spec (Quota.quota_ q)
                  (Quota.usage_ q + Z.min requested (Quota.quota_ q - Quota.usage_ q)));
        lia.
  - rewrite Henf in Ea. cbn [negb andb] in Ea. subst a. rewrite Z.add_0_r.
    rewrite set_usage_same, (Quota_Available_value q Hwf).
    destruct (Z.leb_spec (Quota.quota_ q) (Quota.usage_ q)) as [Hfull|Hfree].
    + destruct (Z.leb_spec minimal 0); [|lia].
      assert (minimal = 0) as -> by lia. lia.
    + destruct (Z.leb_spec minimal (Quota.quota_ q - Quota.usage_ q)); lia.
Qed.

Lemma Quota_Allocate_enforced_by_Available_witness :
  exists t a q',
    Quota.Allocate (Quota.mk 70 true 100) 50 20 true = Done t (a, q') /\
    a = (if 20 <=? Quota.Available (Quota.mk 70 true 100)
         then Z.min 50 (Quota.Available (Quota.mk 70 true 100)) else 0) /\
    0 <= a <= Quota.Available (Quota.mk 70 true 100) /\
    Quota.Available q' = Quota.Available (Quota.mk 70 true 100) - a.
Proof.
  apply (Quota_Allocate_enforced_by_Available true (Quota.mk 70 true 100) 50 20).
  - split; split; vm_compute; discriminate.
  - reflexivity.
  - lia.
Defined.

(** The grant of a call is not negative and fits on top of the usage. *)
Lemma Quota_Allocate_contract_free (dbg : bool) (q : Quota.t) (requested minimal : size_t) :
  Quota.wf q -> 0 <= minimal <= requested ->
  exists t a,
    Quota.Allocate q requested minimal dbg
      = Done t (a, Quota.set_usage q (Quota.usage_ q + a)) /\
    0 <= a /\ Quota.usage_ q + a <= SIZE_MAX.
Proof.
  intros Hwf Hm. pose proof Hwf as [Hu Hq]. unfold is_size_t in Hu, Hq.
  destruct (Quota_Allocate_step dbg q requested minimal Hwf Hm)
    as (t & a & E & [(Hle & Hroom & Ea & _)|(Hooq & Ea & _)]).
  - exists t, a. split; [exact E|]. lia.
  - exists t, a. split; [exact E|]. rewrite Ea.
    destruct (negb (Quota.enforced_ q)); [rewrite andb_true_l|rewrite andb_false_l].
    + destruct (Z.leb_spec minimal (SIZE_MAX - Quota.usage_ q)); lia.
    + lia.
Qed.

(** X3.  A quota that is not enforced denies a request only to keep the
    usage counter from wrapping: when [usage + minimal] fits a [size_t]
    the answer lies in [[minimal, requested]], whether the request is
    within the quota or not; when it does not fit, the answer is [0] and
    the quota is as before. *)
Theorem Quota_Allocate_advisory_grants
    (dbg : bool) (q : Quota.t) (requested minimal : size_t) :
  Quota.wf q -> Quota.enforced_ q = false -> 0 <= minimal <= requested ->
  exists t a q',
    Quota.Allocate q requested minimal dbg = Done t (a, q') /\
    (Quota.usage_ q + minimal <= SIZE_MAX -> minimal <= a <= requested) /\
    (Quota.usage_ q + minimal > SIZE_MAX -> a = 0 /\ q' = q).
Proof.
  intros Hwf Henf Hm. pose proof Hwf as [Hu Hq]. unfold is_size_t in Hu, Hq.
  destruct (Quota_Allocate_step dbg q requested minimal Hwf Hm)
    as (t & a & E & [(Hle & Hroom & Ea & _)|(Hooq & Ea & _)]).
  - exists t, a, (Quota.set_usage q (Quota.usage_ q + a)).
    split; [exact E|]. split; intros; lia.
  - exists t, a, (Quota.set_usage q (Quota.usage_ q + a)).
    split; [exact E|]. rewrite Henf in Ea. cbn [negb] in Ea. rewrite andb_true_l in Ea.
    destruct (Z.leb_spec minimal (SIZE_MAX - Quota.usage_ q)); subst a.
    + split; intros; lia.
    + split; [intros; lia|]. intros _. split; [reflexivity|].
      rewrite Z.add_0_r. apply set_usage_same.
Qed.

Lemma Quota_Allocate_advisory_grants_witness :
  exists t a q',
    Quota.Allocate (Quota.mk (SIZE_MAX - 3) false 10) 9 5 false = Done t (a, q') /\
    (SIZE_MAX - 3 + 5 <= SIZE_MAX -> 5 <= a <= 9) /\
    (SIZE_MAX - 3 + 5 > SIZE_MAX -> a = 0 /\ q' = Quota.mk (SIZE_MAX - 3) false 10).
Proof.
  apply (Quota_Allocate_advisory_grants false (Quota.mk (SIZE_MAX - 3) false 10) 9 5).
  - split; split; vm_compute; discriminate.
  - reflexivity.
  - lia.
Defined.

(** X4.  [Allocate] and [Free] are inverse on the bookkeeping: freeing
    the amount a call of [Allocate] has just granted brings the quota
    back to the state before the call, in either mode, and logs nothing
    unless the usage was above [SIZE_MAX - 2^28] to begin with. *)
Theorem Quota_Allocate_then_Free
    (dbg : bool) (q : Quota.t) (requested minimal : size_t) :
  Quota.wf q -> 0 <= minimal <= requested ->
  exists t a q' t',
    Quota.Allocate q requested minimal dbg = Done t (a, q') /\
    Quota.Free q' a dbg = Done t' q /\
    (Quota.usage_ q <= SIZE_MAX - 2 ^ 28 -> t' = []).
Proof.
  intros Hwf Hm. pose proof Hwf as [Hu Hq]. unfold is_size_t in Hu, Hq.
  destruct (Quota_Allocate_contract_free dbg q requested minimal Hwf Hm)
    as (t & a & E & Ha0 & Hfit).
  exists t, a, (Quota.set_usage q (Quota.usage_ q + a)). eexists.
  split; [exact E|]. rewrite Quota_Free_run.
  change (Quota.usage_ (Quota.set_usage q (Quota.usage_ q + a)))
    with (Quota.usage_ q + a).
  assert (Eu : size_sub (Quota.usage_ q + a) a = Quota.usage_ q).
  { rewrite size_sub_exact; unfold is_size_t; lia. }
  assert (Eq : Quota.set_usage (Quota.set_usage q (Quota.usage_ q + a)) (Quota.usage_ q)
               = q) by (destruct q; reflexivity).
  rewrite Eu, Eq. split.
  - reflexivity.
  - intros Hsmall.
    destruct (Z.ltb_spec (SIZE_MAX - 2 ^ 28) (Quota.usage_ q)); [lia|reflexivity].
Qed.

Lemma Quota_Allocate_then_Free_witness :
  exists t a q' t',
    Quota.Allocate (Quota.mk 10 false 10) 100 5 true = Done t (a, q') /\
    Quota.Free q' a true = Done t' (Quota.mk 10 false 10) /\
    (10 <= SIZE_MAX - 2 ^ 28 -> t' = []).
Proof.
  apply (Quota_Allocate_then_Free true (Quota.mk 10 false 10) 100 5).
  - split; split; vm_compute; discriminate.
  - lia.
Defined.

(** X5.  [Free] is additive on the usage, wrap-around included: freeing
    two amounts one after the other, in either order, leaves the quota
    in the state that freeing their sum leaves it in. *)
Theorem Quota_Free_additive (dbg : bool) (q : Quota.t) (a b : size_t) :
  exists ta tb tb' ta' ts qa qb qab,
    Quota.Free q a dbg = Done ta qa /\
    Quota.Free qa b dbg = Done tb qab /\
    Quota.Free q b dbg = Done tb' qb /\
    Quota.Free qb a dbg = Done ta' qab /\
    Quota.Free q (size_add a b) dbg = Done ts qab.
Proof.
  do 5 eexists.
  exists (Quota.set_usage q (size_sub (Quota.usage_ q) a)),
         (Quota.set_usage q (size_sub (Quota.usage_ q) b)),
         (Quota.set_usage q (size_sub (Quota.usage_ q) (size_add a b))).
  assert (Eab : size_sub (size_sub (Quota.usage_ q) a) b
                = size_sub (Quota.usage_ q) (size_add a b)).
  { unfold size_sub, size_add, size_wrap.
    rewrite Zminus_mod_idemp_l, Zminus_mod_idemp_r. f_equal. lia. }
  assert (Eba : size_sub (size_sub (Quota.usage_ q) b) a
                = size_sub (Quota.usage_ q) (size_add a b)).
  { unfold size_sub, size_add, size_wrap.
    rewrite Zminus_mod_idemp_l, Zminus_mod_idemp_r. f_equal. lia. }
  rewrite !Quota_Free_run.
  cbn [Quota.set_usage Quota.usage_ Quota.quota_ Quota.enforced_].
  rewrite Eab, Eba. repeat split; reflexivity.
Qed.

(** ** Runs of calls on a quota *)

Lemma Quota_Free_covered_step (dbg : bool) (q : Quota.t) (amount : size_t) :
  Quota.wf q -> 0 <= amount ->
  exists t,
    Quota.Free q amount dbg
      = Done t (Quota.set_usage q (size_sub (Quota.usage_ q) amount)) /\
    Quota.wf (Quota.set_usage q (size_sub (Quota.usage_ q) amount)) /\
    (amount <= Quota.usage_ q ->
     size_sub (Quota.usage_ q) amount = Quota.usage_ q - amount /\
     (Quota.usage_ q <= SIZE_MAX - 2 ^ 28 -> t = [])).
Proof.
  intros [Hu Hq] Ha. eexists. split; [apply Quota_Free_run|]. split.
  - split; [apply size_wrap_range|exact Hq].
  - intros Hle.
    assert (E : size_sub (Quota.usage_ q) amount = Quota.usage_ q - amount).
    { apply size_sub_exact; unfold is_size_t in *; lia. }
    split; [exact E|]. intros Hsmall. rewrite E.
    destruct (Z.ltb_spec (SIZE_MAX - 2 ^ 28) (Quota.usage_ q - amount)); [lia|reflexivity].
Qed.

Lemma run_quota_invariant (dbg : bool) (cs : list quota_call) :
  forall q : Quota.t,
    Quota.wf q -> Forall valid_call cs ->
    exists t grants q',
      run_quota cs q dbg = Done t (grants, q') /\
      Quota.wf q' /\
      Quota.quota_ q' = Quota.quota_ q /\
      Quota.enforced_ q' = Quota.enforced_ q /\
      (Quota.enforced_ q = true ->
       Quota.usage_ q <= Quota.quota_ q ->
       frees_covered cs (Quota.usage_ q) grants ->
       Quota.usage_ q' = Quota.usage_ q + sum_Z grants - freed cs /\
       Quota.usage_ q' <= Quota.quota_ q /\
       (Quota.quota_ q <= SIZE_MAX - 2 ^ 28 -> Forall (fun e => ~ is_ERROR e) t)).
Proof.
  induction cs as [|c cs IH]; intros q Hwf Hvalid.
  - exists [], [], q. split; [reflexivity|].
    split; [exact Hwf|]. split; [reflexivity|]. split; [reflexivity|].
    intros _ Hle _. split; [unfold freed, sum_Z; cbn [map fold_right]; lia|].
    split; [exact Hle|]. intros _. constructor.
  - inversion Hvalid as [|c0 cs0 Hc Hcs]; subst c0 cs0.
    pose proof Hwf as [Hu Hq]. unfold is_size_t in Hu, Hq.
    destruct c as [requested minimal|amount]; cbn [valid_call] in Hc.
    + destruct (Quota_Allocate_step dbg q requested minimal Hwf Hc)
        as (t1 & a & E & Hcase).
      destruct (Quota_Allocate_contract_free dbg q requested minimal Hwf Hc)
        as (t1' & a' & E' & Ha0 & Hfit).
      rewrite E in E'. injection E' as _ Ea'. assert (a' = a) by congruence. subst a'.
      set (q1 := Quota.set_usage q (Quota.usage_ q + a)) in *.
      assert (Hwf1 : Quota.wf q1).
      { split; unfold is_size_t; cbn [q1 Quota.set_usage Quota.usage_ Quota.quota_]; lia. }
      destruct (IH q1 Hwf1 Hcs) as (t2 & grants & q' & E2 & Hwf' & Eq' & Ee' & Hinv).
      exists (t1 ++ t2), (a :: grants), q'.
      split.
      { cbn [run_quota]. rewrite (bind_Done _ _ _ _ _ E).
        rewrite (bind_Done _ _ _ _ _ E2). unfold ret. now rewrite app_nil_r. }
      split; [exact Hwf'|]. split; [exact Eq'|]. split; [exact Ee'|].
      intros Henf Hle Hcov. cbn [frees_covered] in Hcov.
      assert (Hin : Quota.usage_ q + a <= Quota.quota_ q /\
                    Forall (fun e => ~ is_ERROR e) t1).
      { destruct Hcase as [(_ & Hroom & Ea & Et)|(_ & Ea & Et)].
        - subst t1. split; [lia|constructor].
        - rewrite Henf in Ea. cbn [negb andb] in Ea. subst a t1.
          split; [lia|]. constructor; [|constructor]. cbn [is_ERROR]. tauto. }
      destruct (Hinv Henf (proj1 Hin) Hcov) as (Eu & Hle' & Hlog).
      cbn [q1 Quota.set_usage Quota.usage_ Quota.quota_] in Eu, Hle', Hlog.
      split; [|split; [exact Hle'|]].
      * unfold freed, sum_Z in *. cbn [map fold_right]. lia.
      * intros Hsmall. apply Forall_app. split; [apply Hin|apply Hlog; exact Hsmall].
    + destruct (Quota_Free_covered_step dbg q amount Hwf Hc) as (t1 & E & Hwf1 & Hcovd).
      set (q1 := Quota.set_usage q (size_sub (Quota.usage_ q) amount)) in *.
      destruct (IH q1 Hwf1 Hcs) as (t2 & grants & q' & E2 & Hwf' & Eq' & Ee' & Hinv).
      exists (t1 ++ t2), grants, q'.
      split.
      { cbn [run_quota]. rewrite (bind_Done _ _ _ _ _ E). now rewrite E2. }
      split; [exact Hwf'|]. split; [exact Eq'|]. split; [exact Ee'|].
      intros Henf Hle [Hamt Hcov].
      destruct (Hcovd Hamt) as [Eu1 Hquiet].
      cbn [q1 Quota.set_usage Quota.usage_ Quota.quota_] in Hinv.
      rewrite Eu1 in Hinv.
      destruct (Hinv Henf ltac:(lia) Hcov) as (Eu & Hle' & Hlog).
      split; [|split; [exact Hle'|]].
      * unfold freed, sum_Z in *. cbn [map fold_right]. lia.
      * intros Hsmall. apply Forall_app. split; [|apply Hlog; exact Hsmall].
        rewrite Hquiet by lia. constructor.
Qed.

(** X6.  The limit of an enforced quota is an invariant of its use.
    Start within the limit and make any series of calls of [Allocate]
    (with [minimal <= requested]) and [Free]: the run returns, and as
    long as no [Free] returns more than is booked at that point, the
    usage at the end is the usage at the start plus the grants less the
    amounts freed, and it is within the limit; if the limit is at most
    [SIZE_MAX - 2^28], no error line is logged. *)
Theorem run_quota_keeps_limit (dbg : bool) (cs : list quota_call) (q : Quota.t) :
  Quota.wf q -> Quota.enforced_ q = true ->
  Quota.usage_ q <= Quota.quota_ q ->
  Forall valid_call cs ->
  exists t grants q',
    run_quota cs q dbg = Done t (grants, q') /\
    Quota.quota_ q' = Quota.quota_ q /\
    (frees_covered cs (Quota.usage_ q) grants ->
     Quota.usage_ q' = Quota.usage_ q + sum_Z grants - freed cs /\
     0 <= Quota.usage_ q' <= Quota.quota_ q /\
     (Quota.quota_ q <= SIZE_MAX - 2 ^ 28 -> Forall (fun e => ~ is_ERROR e) t)).
Proof.
  intros Hwf Henf Hle Hvalid.
  destruct (run_quota_invariant dbg cs q Hwf Hvalid)
    as (t & grants & q' & E & [Hu' _] & Eq & _ & Hinv).
  exists t, grants, q'. split; [exact E|]. split; [exact Eq|].
  intros Hcov. destruct (Hinv Henf Hle Hcov) as (Eu & Hle' & Hlog).
  split; [exact Eu|]. split; [|exact Hlog]. unfold is_size_t in Hu'. lia.
Qed.

Lemma run_quota_keeps_limit_witness :
  exists t q',
    run_quota [CallAllocate 60 10; CallAllocate 60 10; CallFree 60;
               CallAllocate 100 100; CallFree 40; CallAllocate 100 1]
      (Quota.ctor 100 true) true
      = Done t ([60; 40; 0; 100], q') /\
    Quota.usage_ q' = 0 + sum_Z [60; 40; 0; 100] - (60 + 40) /\
    0 <= Quota.usage_ q' <= 100 /\
    Forall (fun e => ~ is_ERROR e) t.
Proof.
  assert (Hwf : Quota.wf (Quota.ctor 100 true)) by (split; split; vm_compute; discriminate).
  assert (Hvalid : Forall valid_call
            [CallAllocate 60 10; CallAllocate 60 10; CallFree 60;
             CallAllocate 100 100; CallFree 40; CallAllocate 100 1]).
  { repeat constructor; cbn [valid_call]; lia. }
  destruct (run_quota_keeps_limit true _ (Quota.ctor 100 true) Hwf eq_refl
              ltac:(vm_compute; discriminate) Hvalid)
    as (t & grants & q' & E & _ & Hinv).
  assert (Egrants : grants = [60; 40; 0; 100]).
  { assert (Erun : exists t0 q0,
              run_quota [CallAllocate 60 10; CallAllocate 60 10; CallFree 60;
                         CallAllocate 100 100; CallFree 40; CallAllocate 100 1]
                (Quota.ctor 100 true) true = Done t0 ([60; 40; 0; 100], q0))
      by (eexists _, _; vm_compute; reflexivity).
    destruct Erun as (t0 & q0 & Erun). rewrite Erun in E. now injection E as _ <- _. }
  subst grants. exists t, q'. split; [exact E|].
  destruct Hinv as (Eu & Hle & Hlog).
  { cbn [frees_covered Quota.usage_ Quota.ctor]. repeat split; vm_compute; discriminate. }
  split; [exact Eu|]. split; [exact Hle|]. apply Hlog. vm_compute. discriminate.
Defined.

(** ** StaticQuota::SetQuota *)

(** X7.  Lowering the limit of an enforced quota below its usage revokes
    nothing and blocks everything: the usage is as before,
    [Available()] is [0], and every [Allocate] returns [0] and leaves
    the quota as it is, also for [minimal = 0].  Once [Free] has brought
    the usage far enough under the new limit, [Allocate] grants again,
    against the new limit. *)
Theorem Quota_SetQuota_below_usage
    (dbg : bool) (q : Quota.t) (quota requested minimal amount : size_t) :
  Quota.wf q -> Quota.enforced_ q = true ->
  0 <= quota < Quota.usage_ q ->
  0 <= minimal <= requested ->
  Quota.GetQuota (Quota.SetQuota q quota) = quota /\
  Quota.GetUsage (Quota.SetQuota q quota) = Quota.GetUsage q /\
  Quota.Available (Quota.SetQuota q quota) = 0 /\
  (exists t,
     Quota.Allocate (Quota.SetQuota q quota) requested minimal dbg
       = Done t (0, Quota.SetQuota q quota)) /\
  (0 <= amount <= Quota.usage_ q ->
   minimal <= quota - (Quota.usage_ q - amount) ->
   exists t1 q1 q2,
     Quota.Free (Quota.SetQuota q quota) amount dbg = Done t1 q1 /\
     Quota.Allocate q1 requested minimal dbg
       = Done [] (Z.min requested (quota - (Quota.usage_ q - amount)), q2) /\
     Quota.usage_ q2 <= quota).
Proof.
  intros Hwf Henf Hx Hm. pose proof Hwf as [Hu Hq]. unfold is_size_t in Hu, Hq.
  set (q1 := Quota.SetQuota q quota).
  assert (Hwf1 : Quota.wf q1).
  { split; unfold is_size_t; cbn [q1 Quota.SetQuota Quota.usage_ Quota.quota_]; lia. }
  split; [reflexivity|]. split; [reflexivity|]. split; [|split].
  - rewrite (Quota_Available_value q1 Hwf1).
    cbn [q1 Quota.SetQuota Quota.usage_ Quota.quota_].
    destruct (Z.leb_spec quota (Quota.usage_ q)); [reflexivity|lia].
  - eexists. apply Quota_Allocate_denied; try assumption.
    left. cbn [q1 Quota.SetQuota Quota.usage_ Quota.quota_]. lia.
  - intros Hamt Hroom.
    destruct (Quota_Free_covered_step dbg q1 amount Hwf1 (proj1 Hamt))
      as (t1 & E1 & Hwf2 & Hcov).
    destruct (Hcov (proj2 Hamt)) as [Eu _].
    cbn [q1 Quota.SetQuota Quota.usage_] in Eu.
    exists t1, (Quota.set_usage q1 (size_sub (Quota.usage_ q1) amount)). eexists.
    split; [exact E1|]. split.
    + rewrite Quota_Allocate_in_quota; try assumption;
        cbn [q1 Quota.SetQuota Quota.set_usage Quota.usage_ Quota.quota_];
        rewrite ?Eu; try lia.
      reflexivity.
    + cbn [q1 Quota.SetQuota Quota.set_usage Quota.usage_ Quota.quota_].
      rewrite ?Eu. lia.
Qed.

Lemma Quota_SetQuota_below_usage_witness :
  Quota.Available (Quota.SetQuota (Quota.mk 80 true 100) 50) = 0 /\
  (exists t,
     Quota.Allocate (Quota.SetQuota (Quota.mk 80 true 100) 50) 10 0 true
       = Done t (0, Quota.SetQuota (Quota.mk 80 true 100) 50)) /\
  (exists t1 q1 q2,
     Quota.Free (Quota.SetQuota (Quota.mk 80 true 100) 50) 40 true = Done t1 q1 /\
     Quota.Allocate q1 10 0 true = Done [] (Z.min 10 (50 - (80 - 40)), q2) /\
     Quota.usage_ q2 <= 50).
Proof.
  assert (Hwf : Quota.wf (Quota.mk 80 true 100)) by (split; split; vm_compute; discriminate).
  destruct (Quota_SetQuota_below_usage true (Quota.mk 80 true 100) 50 10 0 40
              Hwf eq_refl ltac:(cbn [Quota.usage_]; lia) ltac:(lia))
    as (_ & _ & Hav & Hdeny & Hfree).
  split; [exact Hav|]. split; [exact Hdeny|].
  apply Hfree; cbn [Quota.usage_]; lia.
Defined.

(** ** GuaranteeMemory::ReallocateInternal *)

Lemma to_int64_small (z : Z) : 0 <= z < 2 ^ 63 -> to_int64 z = z.
Proof.
  intros Hz. unfold to_int64. destruct (Z.ltb_spec z (2 ^ 63)); [reflexivity|lia].
Qed.

Lemma to_int64_big (z : Z) : 2 ^ 63 <= z -> to_int64 z = z - 2 ^ 64.
Proof.
  intros Hz. unfold to_int64. destruct (Z.ltb_spec z (2 ^ 63)); [lia|reflexivity].
Qed.

(** The signed reading of an unsigned difference is the difference, as
    long as that fits an [int64_t]. *)
Lemma to_int64_size_sub (x y : size_t) :
  is_size_t x -> is_size_t y -> - 2 ^ 63 <= x - y < 2 ^ 63 ->
  to_int64 (size_sub x y) = x - y.
Proof.
  intros Hx Hy Hd. destruct (Z_lt_le_dec x y) as [Hlt|Hle].
  - rewrite (size_sub_borrow x y Hx Hy Hlt).
    change SIZE_MODULUS with (2 ^ 64). rewrite to_int64_big; lia.
  - rewrite (size_sub_exact x y Hx Hy Hle). apply to_int64_small. lia.
Qed.

Lemma GuaranteeMemory_Available_range {D : Type} `{BufferAllocator D}
    (g : GuaranteeMemory.t D) : is_size_t (GuaranteeMemory.Available g).
Proof. unfold GuaranteeMemory.Available, size_sub. apply size_wrap_range. Qed.

Lemma GuaranteeMemory_ReallocateInternal_guard {D : Type} `{BufferAllocator D}
    (dbg : bool) (g : GuaranteeMemory.t D) (requested minimal : size_t)
    (buffer : Buffer.t) (originator : Z) :
  GuaranteeMemory.ReallocateInternal g requested minimal buffer originator dbg
  = if to_int64 (size_sub requested (Buffer.size buffer))
         <=? to_int64 (GuaranteeMemory.Available g)
    then match MemoryLimit.ReallocateInternal (GuaranteeMemory.limit_ g)
                 requested requested buffer originator dbg with
         | Fatal => Fatal
         | Done t (ok, b, l) =>
             Done t (ok, b, GuaranteeMemory.mk l (GuaranteeMemory.memory_guarantee_ g))
         end
    else Done [] (false, buffer, g).
Proof.
  unfold GuaranteeMemory.ReallocateInternal.
  destruct (to_int64 (size_sub requested (Buffer.size buffer))
            <=? to_int64 (GuaranteeMemory.Available g)); [|reflexivity].
  unfold bind, DelegateReallocate.
  change (ReallocateInternal (GuaranteeMemory.limit_ g) requested requested buffer
            originator dbg)
    with (MemoryLimit.ReallocateInternal (GuaranteeMemory.limit_ g)
            requested requested buffer originator dbg).
  destruct (MemoryLimit.ReallocateInternal (GuaranteeMemory.limit_ g)
              requested requested buffer originator dbg) as [t [[ok b] l]|];
    [|reflexivity].
  unfold ret. cbv beta iota. now rewrite app_nil_r.
Qed.

(** X8.  With every quantity below [2^63] the signed arithmetic of
    [GuaranteeMemory::ReallocateInternal] is exact: the reallocation is
    refused, with the buffer, the guarantee and its delegate untouched,
    exactly when the growth [requested - size] exceeds [Available()];
    otherwise it is forwarded to the limit as
    [reallocate(requested, requested)], whatever [minimal] was.  A
    reallocation that does not grow the buffer is never refused here. *)
Theorem GuaranteeMemory_ReallocateInternal_exact {D : Type} `{BufferAllocator D}
    (dbg : bool) (g : GuaranteeMemory.t D) (requested minimal : size_t)
    (buffer : Buffer.t) (originator : Z) :
  0 <= requested < 2 ^ 63 ->
  0 <= Buffer.size buffer < 2 ^ 63 ->
  GuaranteeMemory.Available g < 2 ^ 63 ->
  (requested - Buffer.size buffer > GuaranteeMemory.Available g ->
   GuaranteeMemory.ReallocateInternal g requested minimal buffer originator dbg
   = Done [] (false, buffer, g))
  /\
  (requested - Buffer.size buffer <= GuaranteeMemory.Available g ->
   GuaranteeMemory.ReallocateInternal g requested minimal buffer originator dbg
   = match MemoryLimit.ReallocateInternal (GuaranteeMemory.limit_ g)
             requested requested buffer originator dbg with
     | Fatal => Fatal
     | Done t (ok, b, l) =>
         Done t (ok, b, GuaranteeMemory.mk l (GuaranteeMemory.memory_guarantee_ g))
     end)
  /\
  (requested <= Buffer.size buffer ->
   GuaranteeMemory.ReallocateInternal g requested minimal buffer originator dbg
   = match MemoryLimit.ReallocateInternal (GuaranteeMemory.limit_ g)
             requested requested buffer originator dbg with
     | Fatal => Fatal
     | Done t (ok, b, l) =>
         Done t (ok, b, GuaranteeMemory.mk l (GuaranteeMemory.memory_guarantee_ g))
     end).
Proof.
  intros Hr Hs Hav.
  pose proof (GuaranteeMemory_Available_range g) as Hrange. unfold is_size_t in Hrange.
  assert (Ed : to_int64 (size_sub requested (Buffer.size buffer))
               = requested - Buffer.size buffer).
  { apply to_int64_size_sub; unfold is_size_t; rewrite ?SIZE_MAX_value; lia. }
  assert (Ea : to_int64 (GuaranteeMemory.Available g) = GuaranteeMemory.Available g).
  { apply to_int64_small. lia. }
  rewrite GuaranteeMemory_ReallocateInternal_guard, Ed, Ea.
  split; [|split].
  - intros Hover.
    destruct (Z.leb_spec (requested - Buffer.size buffer) (GuaranteeMemory.Available g));
      [lia|reflexivity].
  - intros Hfits.
    destruct (Z.leb_spec (requested - Buffer.size buffer) (GuaranteeMemory.Available g));
      [reflexivity|lia].
  - intros Hshrink.
    destruct (Z.leb_spec (requested - Buffer.size buffer) (GuaranteeMemory.Available g));
      [reflexivity|lia].
Qed.

Lemma GuaranteeMemory_ReallocateInternal_exact_witness :
  GuaranteeMemory.ReallocateInternal (GuaranteeMemory.ctor 100 example_heap)
    150 1 (Buffer.mk 4096 40 7) 7 true
  = Done [] (false, Buffer.mk 4096 40 7, GuaranteeMemory.ctor 100 example_heap).
Proof.
  refine (proj1 (GuaranteeMemory_ReallocateInternal_exact true
                   (GuaranteeMemory.ctor 100 example_heap) 150 1
                   (Buffer.mk 4096 40 7) 7 _ _ _) _).
  - split; vm_compute; [discriminate|reflexivity].
  - split; vm_compute; [discriminate|reflexivity].
  - vm_compute. reflexivity.
  - vm_compute. reflexivity.
Defined.

(** The signed reading of an unsigned difference, for any two values of
    [size_t]: the difference itself when it fits an [int64_t], and
    otherwise the difference moved by [2^64] into the range. *)
Lemma to_int64_size_sub_cases (x y : size_t) :
  is_size_t x -> is_size_t y ->
  to_int64 (size_sub x y)
  = if x - y <? - 2 ^ 63 then x - y + 2 ^ 64
    else if x - y <? 2 ^ 63 then x - y
    else x - y - 2 ^ 64.
Proof.
  intros Hx Hy. pose proof Hx as Hx'. pose proof Hy as Hy'.
  unfold is_size_t in Hx', Hy'. rewrite SIZE_MAX_value in Hx', Hy'.
  destruct (Z.ltb_spec (x - y) (- 2 ^ 63)) as [Hlow|Hlow].
  - rewrite (size_sub_borrow x y Hx Hy) by lia.
    change SIZE_MODULUS with (2 ^ 64). rewrite to_int64_small; lia.
  - destruct (Z.ltb_spec (x - y) (2 ^ 63)) as [Hmid|Hhigh].
    + apply to_int64_size_sub; try assumption. lia.
    + rewrite (size_sub_exact x y Hx Hy) by lia. apply to_int64_big. lia.
Qed.

(** X9.  The cast [static_cast<int64_t>(Available())] turns an
    [Available()] of [2^63] or more into a negative number.  For a
    [GuaranteeMemory] with that much available, and any [requested] and
    buffer size of type [size_t], [ReallocateInternal] forwards the
    reallocation only when the change of size
    [d = requested - size] has [2^63 <= d <= Available()] or
    [-2^63 <= d <= Available() - 2^64]; every other reallocation is
    refused with the buffer and the allocator untouched, in particular
    every one that keeps the size or grows it by less than [2^63]
    bytes.  [AllocateInternal] in the same state forwards every request
    with [requested <= Available()]. *)
Theorem GuaranteeMemory_ReallocateInternal_huge {D : Type} `{BufferAllocator D}
    (dbg : bool) (g : GuaranteeMemory.t D) (requested minimal : size_t)
    (buffer : Buffer.t) (originator : Z) :
  is_size_t requested ->
  is_size_t (Buffer.size buffer) ->
  2 ^ 63 <= GuaranteeMemory.Available g ->
  (2 ^ 63 <= requested - Buffer.size buffer <= GuaranteeMemory.Available g
   \/ - 2 ^ 63 <= requested - Buffer.size buffer <= GuaranteeMemory.Available g - 2 ^ 64 ->
   GuaranteeMemory.ReallocateInternal g requested minimal buffer originator dbg
   = match MemoryLimit.ReallocateInternal (GuaranteeMemory.limit_ g)
             requested requested buffer originator dbg with
     | Fatal => Fatal
     | Done t (ok, b, l) =>
         Done t (ok, b, GuaranteeMemory.mk l (GuaranteeMemory.memory_guarantee_ g))
     end)
  /\
  (requested - Buffer.size buffer < - 2 ^ 63
   \/ GuaranteeMemory.Available g - 2 ^ 64 < requested - Buffer.size buffer < 2 ^ 63
   \/ GuaranteeMemory.Available g < requested - Buffer.size buffer ->
   GuaranteeMemory.ReallocateInternal g requested minimal buffer originator dbg
   = Done [] (false, buffer, g))
  /\
  (0 <= requested - Buffer.size buffer < 2 ^ 63 ->
   GuaranteeMemory.ReallocateInternal g requested minimal buffer originator dbg
   = Done [] (false, buffer, g))
  /\
  (requested <= GuaranteeMemory.Available g ->
   GuaranteeMemory.AllocateInternal g requested minimal originator dbg
   = match MemoryLimit.AllocateInternal (GuaranteeMemory.limit_ g)
             requested requested originator dbg with
     | Fatal => Fatal
     | Done t (result, l) =>
         Done t (result, GuaranteeMemory.mk l (GuaranteeMemory.memory_guarantee_ g))
     end).
Proof.
  intros Hr Hs Hav.
  pose proof (GuaranteeMemory_Available_range g) as Hrange.
  unfold is_size_t in Hrange. rewrite SIZE_MAX_value in Hrange.
  pose proof Hr as Hr'. pose proof Hs as Hs'.
  unfold is_size_t in Hr', Hs'. rewrite SIZE_MAX_value in Hr', Hs'.
  assert (Hrefuse :
            requested - Buffer.size buffer < - 2 ^ 63
            \/ GuaranteeMemory.Available g - 2 ^ 64
               < requested - Buffer.size buffer < 2 ^ 63
            \/ GuaranteeMemory.Available g < requested - Buffer.size buffer ->
            GuaranteeMemory.ReallocateInternal g requested minimal buffer originator dbg
            = Done [] (false, buffer, g)).
  { intros Hd.
    rewrite GuaranteeMemory_ReallocateInternal_guard,
      (to_int64_size_sub_cases _ _ Hr Hs), (to_int64_big _ Hav).
    destruct (Z.ltb_spec (requested - Buffer.size buffer) (- 2 ^ 63));
      [|destruct (Z.ltb_spec (requested - Buffer.size buffer) (2 ^ 63))];
      match goal with
      | |- (if ?x <=? ?y then _ else _) = _ =>
          destruct (Z.leb_spec x y); [lia|reflexivity]
      end. }
  split; [|split; [exact Hrefuse|split]].
  - intros Hd.
    rewrite GuaranteeMemory_ReallocateInternal_guard,
      (to_int64_size_sub_cases _ _ Hr Hs), (to_int64_big _ Hav).
    destruct (Z.ltb_spec (requested - Buffer.size buffer) (- 2 ^ 63));
      [|destruct (Z.ltb_spec (requested - Buffer.size buffer) (2 ^ 63))];
      match goal with
      | |- (if ?x <=? ?y then _ else _) = _ =>
          destruct (Z.leb_spec x y); [reflexivity|lia]
      end.
  - intros Hd. apply Hrefuse. right. left. lia.
  - apply GuaranteeMemory_AllocateInternal_forward.
Qed.

Lemma GuaranteeMemory_ReallocateInternal_huge_witness :
  GuaranteeMemory.ReallocateInternal (GuaranteeMemory.ctor SIZE_MAX example_heap)
    20 20 (Buffer.mk 4096 10 7) 7 true
  = Done [] (false, Buffer.mk 4096 10 7, GuaranteeMemory.ctor SIZE_MAX example_heap).
Proof.
  refine (proj1 (proj2 (proj2
            (GuaranteeMemory_ReallocateInternal_huge true
               (GuaranteeMemory.ctor SIZE_MAX example_heap) 20 20
               (Buffer.mk 4096 10 7) 7 _ _ _))) _).
  - split; vm_compute; discriminate.
  - split; vm_compute; discriminate.
  - vm_compute. discriminate.
  - split; vm_compute; [discriminate|reflexivity].
Defined.

(** ** SoftQuotaBypassingBufferAllocator: what it reports and asks for *)

(** X10.  The bypass never reports less than its inner allocator does,
    and never less than what is left of the bypassed amount; and the
    [minimal] of its first attempt lies between the caller's [minimal]
    and [requested], so the attempt keeps the precondition of the call:
    it is [requested] itself when [requested <= Available()], and the
    caller's [minimal] when [Available() <= minimal]. *)
Theorem SoftQuotaBypassing_bounds {D : Type} `{BufferAllocator D}
    (s : SoftQuotaBypassingBufferAllocator.t D) (requested minimal : size_t) :
  is_size_t (SoftQuotaBypassingBufferAllocator.bypassed_amount_ s) ->
  is_size_t (MemoryLimit.GetUsage (SoftQuotaBypassingBufferAllocator.allocator_ s)) ->
  minimal <= requested ->
  MemoryLimit.Available (SoftQuotaBypassingBufferAllocator.allocator_ s)
    <= SoftQuotaBypassingBufferAllocator.Available s
  /\ SoftQuotaBypassingBufferAllocator.bypassed_amount_ s
       - MemoryLimit.GetUsage (SoftQuotaBypassingBufferAllocator.allocator_ s)
     <= Z.max 0 (SoftQuotaBypassingBufferAllocator.Available s)
  /\ minimal <= SoftQuotaBypassingBufferAllocator.AdjustMinimal s requested minimal
             <= requested
  /\ (requested <= SoftQuotaBypassingBufferAllocator.Available s ->
      SoftQuotaBypassingBufferAllocator.AdjustMinimal s requested minimal = requested)
  /\ (SoftQuotaBypassingBufferAllocator.Available s <= minimal ->
      SoftQuotaBypassingBufferAllocator.AdjustMinimal s requested minimal = minimal).
Proof.
  intros HB Hu Hm.
  unfold SoftQuotaBypassingBufferAllocator.AdjustMinimal.
  assert (Hav : SoftQuotaBypassingBufferAllocator.Available s
                = if MemoryLimit.GetUsage (SoftQuotaBypassingBufferAllocator.allocator_ s)
                     <? SoftQuotaBypassingBufferAllocator.bypassed_amount_ s
                  then Z.max (SoftQuotaBypassingBufferAllocator.bypassed_amount_ s
                              - MemoryLimit.GetUsage
                                  (SoftQuotaBypassingBufferAllocator.allocator_ s))
                         (MemoryLimit.Available
                            (SoftQuotaBypassingBufferAllocator.allocator_ s))
                  else MemoryLimit.Available
                         (SoftQuotaBypassingBufferAllocator.allocator_ s)).
  { unfold SoftQuotaBypassingBufferAllocator.Available.
    destruct (Z.ltb_spec
                (MemoryLimit.GetUsage (SoftQuotaBypassingBufferAllocator.allocator_ s))
                (SoftQuotaBypassingBufferAllocator.bypassed_amount_ s)); [|reflexivity].
    rewrite (size_sub_exact _ _ HB Hu); [reflexivity|lia]. }
  rewrite Hav.
  destruct (Z.ltb_spec
              (MemoryLimit.GetUsage (SoftQuotaBypassingBufferAllocator.allocator_ s))
              (SoftQuotaBypassingBufferAllocator.bypassed_amount_ s));
    repeat split; intros; lia.
Qed.

Lemma SoftQuotaBypassing_bounds_witness :
  10 <= SoftQuotaBypassingBufferAllocator.AdjustMinimal
          (SoftQuotaBypassingBufferAllocator.ctor example_heap 50) 80 10
     <= 80.
Proof.
  refine (proj1 (proj2 (proj2 (SoftQuotaBypassing_bounds
                                 (SoftQuotaBypassingBufferAllocator.ctor example_heap 50)
                                 80 10 _ _ _)))).
  - split; vm_compute; discriminate.
  - split; vm_compute; discriminate.
  - lia.
Defined.

(** ** OwningBufferAllocator *)

Lemma dtor_loop_reverses (fuel : nat) :
  forall owned : list Z,
    (List.length owned <= fuel)%nat ->
    OwningBufferAllocator.dtor_loop fuel owned = Some (rev owned, []).
Proof.
  induction fuel as [|fuel IH]; intros owned Hlen.
  - destruct owned; [reflexivity|cbn [List.length] in Hlen; lia].
  - destruct owned as [|p owned']; [reflexivity|].
    set (owned := p :: owned') in *.
    assert (Hne : owned <> []) by discriminate.
    pose proof (app_removelast_last 0 Hne) as Esplit.
    assert (Hshort : (List.length (removelast owned) <= fuel)%nat).
    { pose proof (f_equal (@List.length Z) Esplit) as El.
      rewrite List.length_app in El. cbn [List.length] in El. lia. }
    change (OwningBufferAllocator.dtor_loop (S fuel) owned)
      with (match OwningBufferAllocator.dtor_loop fuel (removelast owned) with
            | Some (deleted, rest) => Some (last owned 0 :: deleted, rest)
            | None => None
            end).
    rewrite (IH _ Hshort). rewrite Esplit at 3.
    now rewrite rev_app_distr.
Qed.

Lemma Add_all_owned {D : Type} `{BufferAllocator D} (ps : list Z) :
  forall s : OwningBufferAllocator.t D,
    fold_left OwningBufferAllocator.Add ps s
    = OwningBufferAllocator.mk (OwningBufferAllocator.owned_ s ++ ps)
        (OwningBufferAllocator.delegate_ s).
Proof.
  induction ps as [|p ps IH]; intros s.
  - cbn [fold_left]. rewrite app_nil_r. now destruct s.
  - cbn [fold_left]. rewrite IH.
    cbn [OwningBufferAllocator.Add OwningBufferAllocator.owned_
         OwningBufferAllocator.delegate_].
    now rewrite <- app_assoc.
Qed.

(** X11.  The objects given to an [OwningBufferAllocator] with [Add] are
    deleted by its destructor last-added first, each one once: after
    [Add(p1)], ..., [Add(pn)] on a new allocator, the destructor's loop
    ends after [n] iterations, having called [delete] on [pn], ...,
    [p1] in that order and left the vector empty; the delegate is not
    touched by [Add]. *)
Theorem OwningBufferAllocator_deletes_LIFO {D : Type} `{BufferAllocator D}
    (delegate : D) (ps : list Z) (fuel : nat) :
  (List.length ps <= fuel)%nat ->
  OwningBufferAllocator.dtor fuel
    (fold_left OwningBufferAllocator.Add ps (OwningBufferAllocator.ctor delegate))
  = Some (rev ps, [])
  /\ OwningBufferAllocator.delegate_
       (fold_left OwningBufferAllocator.Add ps (OwningBufferAllocator.ctor delegate))
     = delegate.
Proof.
  intros Hfuel. rewrite Add_all_owned.
  cbn [OwningBufferAllocator.ctor OwningBufferAllocator.owned_
       OwningBufferAllocator.delegate_ app].
  split; [|reflexivity].
  unfold OwningBufferAllocator.dtor. cbn [OwningBufferAllocator.owned_].
  apply dtor_loop_reverses. exact Hfuel.
Qed.

Lemma OwningBufferAllocator_deletes_LIFO_witness :
  OwningBufferAllocator.dtor 3
    (OwningBufferAllocator.Add
       (OwningBufferAllocator.Add
          (OwningBufferAllocator.Add (OwningBufferAllocator.ctor example_heap) 11) 22) 33)
  = Some ([33; 22; 11], []).
Proof.
  refine (proj1 (OwningBufferAllocator_deletes_LIFO example_heap [11; 22; 33] 3 _)).
  cbn [List.length]. lia.
Defined.

(** ** Wrappers that add no policy *)

Lemma forwards_run {D W : Type} `{BufferAllocator D} `{BufferAllocator W}
    (wrap : D -> W) :
  forwards wrap ->
  forall (cs : list internal_call) (d : D) (dbg : bool),
    run_internal cs (wrap d) dbg = wrapped wrap (run_internal cs d dbg).
Proof.
  intros Hfw cs. induction cs as [|c cs IH]; intros d dbg; [reflexivity|].
  cbn [run_internal]. unfold bind at 1 3. rewrite Hfw.
  destruct (call_internal d c dbg) as [t1 [r d1]|]; [|reflexivity].
  cbn [wrapped]. unfold bind. rewrite IH.
  destruct (run_internal cs d1 dbg) as [t2 [rs d2]|]; reflexivity.
Qed.

Lemma ThreadSafeBufferAllocator_forwards {D : Type} `{BufferAllocator D} :
  forwards (@ThreadSafeBufferAllocator.mk D).
Proof.
  intros d [requested minimal originator|requested minimal buffer originator|buffer] dbg;
    cbn [call_internal].
  - change (AllocateInternal (ThreadSafeBufferAllocator.mk d) requested minimal originator)
      with (ThreadSafeBufferAllocator.AllocateInternal
              (ThreadSafeBufferAllocator.mk d) requested minimal originator).
    unfold ThreadSafeBufferAllocator.AllocateInternal, DelegateAllocate, bind, ret, wrapped.
    cbn [ThreadSafeBufferAllocator.delegate_].
    destruct (AllocateInternal d requested minimal originator dbg) as [t [result d']|];
      [|reflexivity].
    now rewrite !app_nil_r.
  - change (ReallocateInternal (ThreadSafeBufferAllocator.mk d)
              requested minimal buffer originator)
      with (ThreadSafeBufferAllocator.ReallocateInternal
              (ThreadSafeBufferAllocator.mk d) requested minimal buffer originator).
    unfold ThreadSafeBufferAllocator.ReallocateInternal, DelegateReallocate, bind, ret,
      wrapped.
    cbn [ThreadSafeBufferAllocator.delegate_].
    destruct (ReallocateInternal d requested minimal buffer originator dbg)
      as [t [[ok b] d']|]; [|reflexivity].
    now rewrite !app_nil_r.
  - change (FreeInternal (ThreadSafeBufferAllocator.mk d) buffer)
      with (ThreadSafeBufferAllocator.FreeInternal (ThreadSafeBufferAllocator.mk d) buffer).
    unfold ThreadSafeBufferAllocator.FreeInternal, DelegateFree, bind, ret, wrapped.
    cbn [ThreadSafeBufferAllocator.delegate_].
    destruct (FreeInternal d buffer dbg) as [t d'|]; [|reflexivity].
    now rewrite !app_nil_r.
Qed.

Lemma OwningBufferAllocator_forwards {D : Type} `{BufferAllocator D} (owned : list Z) :
  forwards (@OwningBufferAllocator.mk D owned).
Proof.
  intros d [requested minimal originator|requested minimal buffer originator|buffer] dbg;
    cbn [call_internal].
  - change (AllocateInternal (OwningBufferAllocator.mk owned d) requested minimal originator)
      with (OwningBufferAllocator.AllocateInternal
              (OwningBufferAllocator.mk owned d) requested minimal originator).
    unfold OwningBufferAllocator.AllocateInternal, DelegateAllocate, bind, ret, wrapped.
    cbn [OwningBufferAllocator.delegate_ OwningBufferAllocator.owned_].
    destruct (AllocateInternal d requested minimal originator dbg) as [t [result d']|];
      [|reflexivity].
    now rewrite !app_nil_r.
  - change (ReallocateInternal (OwningBufferAllocator.mk owned d)
              requested minimal buffer originator)
      with (OwningBufferAllocator.ReallocateInternal
              (OwningBufferAllocator.mk owned d) requested minimal buffer originator).
    unfold OwningBufferAllocator.ReallocateInternal, DelegateReallocate, bind, ret, wrapped.
    cbn [OwningBufferAllocator.delegate_ OwningBufferAllocator.owned_].
    destruct (ReallocateInternal d requested minimal buffer originator dbg)
      as [t [[ok b] d']|]; [|reflexivity].
    now rewrite !app_nil_r.
  - change (FreeInternal (OwningBufferAllocator.mk owned d) buffer)
      with (OwningBufferAllocator.FreeInternal (OwningBufferAllocator.mk owned d) buffer).
    unfold OwningBufferAllocator.FreeInternal, DelegateFree, bind, ret, wrapped.
    cbn [OwningBufferAllocator.delegate_ OwningBufferAllocator.owned_].
    destruct (FreeInternal d buffer dbg) as [t d'|]; [|reflexivity].
    now rewrite !app_nil_r.
Qed.

(** X12.  [ThreadSafeBufferAllocator] adds no policy of its own: any
    series of allocate, reallocate and free calls made through it
    returns what the same series returns on the delegate, logs the same
    lines, and leaves the delegate in the same state; and [Available()]
    is the delegate's. *)
Theorem ThreadSafeBufferAllocator_transparent {D : Type} `{BufferAllocator D}
    (cs : list internal_call) (d : D) (dbg : bool) :
  run_internal cs (ThreadSafeBufferAllocator.mk d) dbg
    = wrapped ThreadSafeBufferAllocator.mk (run_internal cs d dbg)
  /\ ThreadSafeBufferAllocator.Available (ThreadSafeBufferAllocator.mk d) = Available d.
Proof.
  split; [|reflexivity].
  apply forwards_run. apply ThreadSafeBufferAllocator_forwards.
Qed.

(** X13.  Owning objects does not alter allocation: any series of
    allocate, reallocate and free calls through an
    [OwningBufferAllocator] returns what it returns on the delegate and
    leaves the delegate in the same state, the owned objects stay as
    they were, and adding an object changes no answer. *)
Theorem OwningBufferAllocator_transparent {D : Type} `{BufferAllocator D}
    (cs : list internal_call) (s : OwningBufferAllocator.t D) (p : Z) (dbg : bool) :
  run_internal cs s dbg
    = wrapped (OwningBufferAllocator.mk (OwningBufferAllocator.owned_ s))
        (run_internal cs (OwningBufferAllocator.delegate_ s) dbg)
  /\ run_internal cs (OwningBufferAllocator.Add s p) dbg
     = wrapped (OwningBufferAllocator.mk (OwningBufferAllocator.owned_ s ++ [p]))
         (run_internal cs (OwningBufferAllocator.delegate_ s) dbg)
  /\ OwningBufferAllocator.Available (OwningBufferAllocator.Add s p)
     = Available (OwningBufferAllocator.delegate_ s).
Proof.
  split; [|split; [|reflexivity]].
  - destruct s as [owned d]. cbn [OwningBufferAllocator.owned_ OwningBufferAllocator.delegate_].
    apply (forwards_run (OwningBufferAllocator.mk owned)).
    apply OwningBufferAllocator_forwards.
  - destruct s as [owned d].
    cbn [OwningBufferAllocator.Add OwningBufferAllocator.owned_
         OwningBufferAllocator.delegate_].
    apply (forwards_run (OwningBufferAllocator.mk (owned ++ [p]))).
    apply OwningBufferAllocator_forwards.
Qed.

(** ** Available() along a chain *)

(** X14.  In a well-formed [GuaranteeMemory], [Available()], computed
    as [memory_guarantee_ - usage], is what the quota of its limit
    reports as available; it takes no account of the delegate, so the
    [Available()] of the limit itself, the smaller of the delegate's
    and the quota's, never exceeds it. *)
Theorem GuaranteeMemory_Available_is_quota_Available {D : Type} `{BufferAllocator D}
    (g : GuaranteeMemory.t D) :
  GuaranteeMemory_wf g ->
  GuaranteeMemory.Available g
    = Quota.Available (MemoryLimit.quota_ (GuaranteeMemory.limit_ g))
  /\ MemoryLimit.Available (GuaranteeMemory.limit_ g)
     = Z.min (Available (MediatingBufferAllocator.delegate_
                           (MemoryLimit.allocator_ (GuaranteeMemory.limit_ g))))
             (GuaranteeMemory.Available g)
  /\ MemoryLimit.Available (GuaranteeMemory.limit_ g) <= GuaranteeMemory.Available g.
Proof.
  intros Hwf. pose proof Hwf as (Hq & _ & Eq & Hle).
  assert (E : GuaranteeMemory.Available g
              = Quota.Available (MemoryLimit.quota_ (GuaranteeMemory.limit_ g))).
  { rewrite (GuaranteeMemory_Available_value g Hwf), (Quota_Available_value _ Hq).
    unfold MemoryLimit.GetUsage, Quota.GetUsage. rewrite <- Eq.
    destruct (Z.leb_spec (Quota.quota_ (MemoryLimit.quota_ (GuaranteeMemory.limit_ g)))
                (Quota.usage_ (MemoryLimit.quota_ (GuaranteeMemory.limit_ g)))); lia. }
  split; [exact E|]. rewrite MemoryLimit_Available_value, <- E.
  split; [reflexivity|]. apply Z.le_min_r.
Qed.

Lemma GuaranteeMemory_Available_is_quota_Available_witness :
  GuaranteeMemory.Available (GuaranteeMemory.ctor 100 example_heap)
  = Quota.Available
      (MemoryLimit.quota_ (GuaranteeMemory.limit_ (GuaranteeMemory.ctor 100 example_heap))).
Proof.
  refine (proj1 (GuaranteeMemory_Available_is_quota_Available
                   (GuaranteeMemory.ctor 100 example_heap) _)).
  apply GuaranteeMemory_ctor_wf. split; vm_compute; discriminate.
Defined.

(** ** ThreadSafeMemoryLimit *)

(** X15.  The accessors of [ThreadSafeMemoryLimit] round-trip: after
    [SetQuota(quota)], [GetQuota()] is [quota], [GetUsage()] and the
    delegate are as before, and a later [SetQuota] overrides an earlier
    one; a new limit has usage [0].  When the new quota is not above the
    usage, [Available()] through the wrapper is [0], whatever the
    delegate has. *)
Theorem ThreadSafeMemoryLimit_SetQuota {D : Type} `{BufferAllocator D}
    (s : ThreadSafeMemoryLimit.t D) (quota quota' : size_t)
    (enforced : bool) (delegate : D) :
  ThreadSafeMemoryLimit.GetQuota (ThreadSafeMemoryLimit.SetQuota s quota) = quota
  /\ ThreadSafeMemoryLimit.GetUsage (ThreadSafeMemoryLimit.SetQuota s quota)
     = ThreadSafeMemoryLimit.GetUsage s
  /\ MediatingBufferAllocator.delegate_
       (MemoryLimit.allocator_
          (ThreadSafeBufferAllocator.delegate_ (ThreadSafeMemoryLimit.SetQuota s quota)))
     = MediatingBufferAllocator.delegate_
         (MemoryLimit.allocator_ (ThreadSafeBufferAllocator.delegate_ s))
  /\ ThreadSafeMemoryLimit.SetQuota (ThreadSafeMemoryLimit.SetQuota s quota) quota'
     = ThreadSafeMemoryLimit.SetQuota s quota'
  /\ ThreadSafeMemoryLimit.GetUsage (ThreadSafeMemoryLimit.ctor quota enforced delegate) = 0
  /\ ThreadSafeMemoryLimit.GetQuota (ThreadSafeMemoryLimit.ctor quota enforced delegate)
     = quota
  /\ (quota <= ThreadSafeMemoryLimit.GetUsage s ->
      0 <= Available (MediatingBufferAllocator.delegate_
                        (MemoryLimit.allocator_ (ThreadSafeBufferAllocator.delegate_ s))) ->
      Available (ThreadSafeMemoryLimit.SetQuota s quota) = 0).
Proof.
  destruct s as [[[d q]]].
  repeat (split; [reflexivity|]).
  intros Hle Hd.
  change (Z.min (Available d) (Quota.Available (Quota.SetQuota q quota)) = 0).
  unfold Quota.Available, Quota.GetQuotaInternal.
  cbn [Quota.SetQuota Quota.quota_ Quota.usage_].
  change (quota <= Quota.usage_ q) in Hle.
  destruct (Z.leb_spec quota (Quota.usage_ q)); [|lia].
  cbn [ThreadSafeBufferAllocator.delegate_ MemoryLimit.allocator_
       MediatingBufferAllocator.delegate_] in Hd.
  apply Z.min_r. exact Hd.
Qed.

(** ** Free past zero *)

(** X16.  Freeing more than is booked gives an enforced quota no room:
    the usage wraps to [2^64 - (amount - usage)], and unless the limit
    is that large, [Available()] is [0] afterwards and every [Allocate]
    returns [0] with the quota unchanged. *)
Theorem Quota_Free_underflow_blocks
    (dbg : bool) (q : Quota.t) (amount requested minimal : size_t) :
  Quota.wf q -> Quota.enforced_ q = true ->
  Quota.usage_ q < amount <= SIZE_MAX ->
  Quota.quota_ q < 2 ^ 64 - (amount - Quota.usage_ q) ->
  0 <= minimal <= requested ->
  exists t1 q1 t2,
    Quota.Free q amount dbg = Done t1 q1 /\
    Quota.usage_ q1 = 2 ^ 64 - (amount - Quota.usage_ q) /\
    Quota.Available q1 = 0 /\
    Quota.Allocate q1 requested minimal dbg = Done t2 (0, q1).
Proof.
  intros Hwf Henf Hamt Hquota Hm. pose proof Hwf as [Hu Hq].
  assert (Ha : is_size_t amount) by (unfold is_size_t in *; lia).
  pose proof (size_sub_borrow _ _ Hu Ha (proj1 Hamt)) as Eu.
  change SIZE_MODULUS with (2 ^ 64) in Eu.
  set (q1 := Quota.set_usage q (size_sub (Quota.usage_ q) amount)).
  assert (Hwf1 : Quota.wf q1).
  { split; [apply size_wrap_range|exact Hq]. }
  assert (Hover : Quota.usage_ q1 > Quota.quota_ q1).
  { cbn [q1 Quota.set_usage Quota.usage_ Quota.quota_]. rewrite Eu. lia. }
  eexists _, q1, _. split; [apply Quota_Free_run|].
  split; [cbn [q1 Quota.set_usage Quota.usage_]; rewrite Eu; lia|]. split.
  - rewrite (Quota_Available_value q1 Hwf1).
    destruct (Z.leb_spec (Quota.quota_ q1) (Quota.usage_ q1)); [reflexivity|lia].
  - apply Quota_Allocate_denied; try assumption. left. exact Hover.
Qed.

Lemma Quota_Free_underflow_blocks_witness :
  exists t1 q1 t2,
    Quota.Free (Quota.mk 5 true 100) 7 true = Done t1 q1 /\
    Quota.usage_ q1 = 2 ^ 64 - (7 - 5) /\
    Quota.Available q1 = 0 /\
    Quota.Allocate q1 1 0 true = Done t2 (0, q1).
Proof.
  apply (Quota_Free_underflow_blocks true (Quota.mk 5 true 100) 7 1 0).
  - split; split; vm_compute; discriminate.
  - reflexivity.
  - split; vm_compute; [reflexivity|discriminate].
  - vm_compute. reflexivity.
  - lia.
Defined.
